(** * twirest: request construction and dispatch of the Twilio REST client

    A shallow embedding of [twirest/twirest.go]: client construction
    ([NewClient]), URL building ([urlString]), query encoding
    ([queryString]), method dispatch ([httpRequest]) and the request /
    response cycle ([Request], [exceptionToErr]).

    Go strings are byte strings: they are modelled by [string] (a list of
    8-bit [ascii] characters).  A Go [error] is modelled by its message,
    [nil] by [None].  Calls to [log.Printf] are not modelled. *)

From Stdlib Require Import Ascii NArith.
From stdpp Require Import gmap strings list fin_maps.

(** ** Byte strings *)

Module Str.

(** Number of occurrences of the byte [c] in [s]. *)
Fixpoint count (c : ascii) (s : string) : nat :=
  match s with
  | "" => 0
  | String a s => (if Ascii.eqb a c then 1 else 0) + count c s
  end.

(** [s] ends in [suf] *)
Definition ends_with (s suf : string) : Prop := ∃ p, s = p +:+ suf.

(** [s] starts with [pre] *)
Definition starts_with (s pre : string) : Prop := ∃ q, s = pre +:+ q.

End Str.

(** ** [net/url.QueryEscape]

    The Go library function used by [queryString].  In query-component
    mode [shouldEscape] keeps exactly the unreserved bytes (letters, digits,
    [-], [_], [.], [~]); a space becomes [+]; every other byte [c] becomes
    [%] followed by [upperhex[c>>4]] and [upperhex[c&15]]. *)

Definition upperhex : string := "0123456789ABCDEF".

Definition hexDigit (n : N) : ascii :=
  default "0"%char (String.get (N.to_nat n) upperhex).

Definition between (lo hi c : ascii) : bool :=
  (N_of_ascii lo <=? N_of_ascii c)%N && (N_of_ascii c <=? N_of_ascii hi)%N.

Definition shouldEscape (c : ascii) : bool :=
  if between "a" "z" c || between "A" "Z" c || between "0" "9" c then false
  else match c with
       | "-" | "_" | "." | "~" => false
       | _ => true
       end%char.

Definition escapeByte (c : ascii) : string :=
  if Ascii.eqb c " " then "+"
  else if shouldEscape c then
    String "%" (String (hexDigit (N.shiftr (N_of_ascii c) 4))
               (String (hexDigit (N.land (N_of_ascii c) 15)) ""))
  else String c "".

Fixpoint QueryEscape (s : string) : string :=
  match s with
  | "" => ""
  | String c s => escapeByte c +:+ QueryEscape s
  end.

(** ** Request descriptors

    The request structs are declared outside [twirest.go]; the engine only
    ever looks at them through [reflect] and through type switches.  A
    descriptor is therefore its concrete type together with its fields in
    declaration order, each with its name, its struct tag and its value. *)

(** The concrete types named by the type switches of [twirest.go]; any other
    struct type handed to [Request] is [OtherStruct]. *)
Inductive ReqType : Set :=
  | DeleteNotification | DeleteOutgoingCallerId | DeleteRecording
  | DeleteParticipant | DeleteQueue
  | SendMessage | MakeCall | ModifyCall | CreateQueue | ChangeQueue
  | DeQueue | UpdateParticipant | UpdateOutgoingCallerId
  | CreateIncomingPhoneNumber | AddOutgoingCallerId
  | Messages | Calls | Accounts | Notifications | OutgoingCallerIds
  | Recordings | UsageRecords | Conferences | Participants
  | AvailablePhoneNumbers
  | Recording | Message | Call | QueueMember
  | OtherStruct (name : string).

(** [reflect.Kind] of the field types that occur in descriptors. *)
Inductive Kind : Set := KString | KBool | KSlice.

Inductive FieldValue : Set :=
  | StringVal (s : string)
  | BoolVal (b : bool)
  | SliceVal (l : list string).

Record StructField : Set := mkField {
  Name : string;
  Tag : string;
  Val : FieldValue
}.

Record Descriptor : Set := mkDescriptor {
  dtype : ReqType;
  dfields : list StructField
}.

Definition kindOf (v : FieldValue) : Kind :=
  match v with
  | StringVal _ => KString
  | BoolVal _ => KBool
  | SliceVal _ => KSlice
  end.

(** [reflect.Value.String]: the string itself for a string, and
    ["<T Value>"] for a value of any other type [T]. *)
Definition reflect_String (v : FieldValue) : string :=
  match v with
  | StringVal s => s
  | BoolVal _ => "<bool Value>"
  | SliceVal _ => "<[]string Value>"
  end.

(** Field selectors [reqSt.F] of the type-specific code; a field holds its
    zero value unless the caller set it. *)
Definition findField (name : string) (d : Descriptor) : option StructField :=
  List.find (λ f, String.eqb (Name f) name) (dfields d).

Definition boolField (name : string) (d : Descriptor) : bool :=
  match Val <$> findField name d with
  | Some (BoolVal b) => b
  | _ => false
  end.

Definition stringField (name : string) (d : Descriptor) : string :=
  match Val <$> findField name d with
  | Some (StringVal s) => s
  | _ => ""
  end.

(** ** queryString *)

(** The [case] list of the type switch in [queryString]. *)
Definition inQueryCases (t : ReqType) : bool :=
  match t with
  | SendMessage | Messages | MakeCall | Calls | ModifyCall | Accounts
  | Notifications | OutgoingCallerIds | Recordings | UsageRecords
  | CreateQueue | ChangeQueue | DeQueue | CreateIncomingPhoneNumber
  | Conferences | Participants | AvailablePhoneNumbers => true
  | _ => false
  end.

Definition nonEmpty (s : string) : bool := negb (String.eqb s "").

(** One iteration of the loop over the fields. *)
Definition queryField (qryStr : string) (fld : StructField) : string :=
  let val := reflect_String (Val fld) in
  let qryStr :=
    match kindOf (Val fld) with
    | KString =>
        if nonEmpty (Tag fld) && nonEmpty val
        then qryStr +:+ Tag fld +:+ QueryEscape val +:+ "&"
        else qryStr
    | _ => qryStr
    end in
  match Val fld with
  | SliceVal v2 =>
      if nonEmpty (Tag fld) && (0 <? length v2)
      then foldl (λ q v, q +:+ Tag fld +:+ QueryEscape v +:+ "&") qryStr v2
      else qryStr
  | _ => qryStr
  end.

(** [qryStr[:len(qryStr)-1]] when [len(qryStr) > 0] *)
Definition trimLast (qryStr : string) : string :=
  if 0 <? String.length qryStr
  then String.substring 0 (String.length qryStr - 1) qryStr
  else qryStr.

Definition queryString (reqSt : Descriptor) : string :=
  if inQueryCases (dtype reqSt)
  then trimLast (foldl queryField "" (dfields reqSt))
  else "".

(** ** urlString *)

Definition ApiVer : string := "2010-04-01".

(** A Go [error] value that is not [nil], by its message. *)
Definition error : Set := string.

(** [required]: the error of the first empty string, [nil] otherwise. *)
Fixpoint required (rs : list string) : option error :=
  match rs with
  | [] => None
  | s :: rs =>
      if String.eqb s "" then Some "required field missing" else required rs
  end.

(** The map [m] from field names to [[2]string{tag, value}]. *)
Definition fieldMap (reqSt : Descriptor) : gmap string (string * string) :=
  foldl (λ m fld, <[Name fld := (Tag fld, reflect_String (Val fld))]> m)
        ∅ (dfields reqSt).

(** The generic part: [.../Accounts/{accSid}/{resource}/{Sid}/{subresource}/{CallSid}]. *)
Definition resourcePart (m : gmap string (string * string)) (accSid url : string) : string :=
  match m !! "resource" with
  | Some fld => url +:+ "/" +:+ accSid +:+ fld.1
  | None => url
  end.

Definition sidPart (m : gmap string (string * string)) (url : string) : string :=
  match m !! "Sid" with
  | Some fld => url +:+ "/" +:+ fld.2
  | None => url
  end.

Definition sidErr (m : gmap string (string * string)) : option error :=
  match m !! "Sid" with
  | Some fld => required [fld.2]
  | None => None
  end.

Definition subresourcePart (m : gmap string (string * string)) (url : string) : string :=
  match m !! "subresource" with
  | Some fld => url +:+ fld.1
  | None => url
  end.

Definition callSidPart (m : gmap string (string * string)) (url : string) : string :=
  match m !! "CallSid" with
  | Some fld => if String.eqb fld.1 "" then url +:+ "/" +:+ fld.2 else url
  | None => url
  end.

(** The second type switch: requests with additional/optional resources. *)
Definition urlSuffix (reqSt : Descriptor) (url : string) : string :=
  match dtype reqSt with
  | Recording =>
      let url :=
        if negb (boolField "GetRecording" reqSt) then url +:+ ".json" else url in
      if boolField "GetRecording" reqSt && boolField "GetMP3" reqSt
      then url +:+ ".mp3" else url
  | AvailablePhoneNumbers =>
      let url :=
        if nonEmpty (stringField "CountryCode" reqSt)
        then url +:+ "/" +:+ stringField "CountryCode" reqSt else url in
      if nonEmpty (stringField "Type" reqSt)
      then url +:+ "/" +:+ stringField "Type" reqSt else url
  | Message =>
      if boolField "Media" reqSt then
        let url := url +:+ "/Media" in
        if nonEmpty (stringField "MediaSid" reqSt)
        then url +:+ "/" +:+ stringField "MediaSid" reqSt else url
      else url
  | Call =>
      if boolField "Recordings" reqSt then url +:+ "/Recordings"
      else if boolField "Notifications" reqSt then url +:+ "/Notifications"
      else url
  | UsageRecords => url +:+ "/" +:+ stringField "SubResource" reqSt
  | QueueMember | DeQueue =>
      if boolField "Front" reqSt && String.eqb (stringField "CallSid" reqSt) ""
      then url +:+ "/Front" else url
  | _ => url
  end.

(** [urlString] returns the URL together with the error: the URL is built to
    the end even when [required] has failed. *)
Definition urlString (reqStruct : Descriptor) (accSid : string) : string * option error :=
  let url := "https://api.twilio.com/" +:+ ApiVer +:+ "/Accounts" in
  let m := fieldMap reqStruct in
  let url := resourcePart m accSid url in
  let err := sidErr m in
  let url := sidPart m url in
  let url := subresourcePart m url in
  let url := callSidPart m url in
  (urlSuffix reqStruct url, err).

(** ** HTTP requests and the client *)

Record HttpRequest : Set := mkRequest {
  Method : string;
  URL : string;
  Body : option string;               (* [None] is the [nil] body *)
  BasicAuth : option (string * string);
  Header : gmap string string
}.

Record HttpResponse : Set := mkResponse {
  StatusCode : Z;
  RespBody : string
}.

(** [TwilioClient]; its [httpclient] is the transport of section [Engine]. *)
Record TwilioClient : Set := mkClient {
  accountSid : string;
  authUser : string;
  authToken : string
}.

(** [NewClient(authBits...)]: [inl c] is [(&c, nil)], [inr e] is [(nil, e)]. *)
Definition NewClient (authBits : list string) : TwilioClient + error :=
  if (length authBits <=? 1) || (3 <? length authBits)
  then inr "2 or 3 arguments only"
  else
    let c := {| accountSid := authBits !!! 0; authUser := ""; authToken := "" |} in
    if length authBits =? 2
    then inl {| accountSid := accountSid c; authUser := authUser c;
                authToken := authBits !!! 1 |}
    else inl {| accountSid := accountSid c; authUser := authBits !!! 1;
                authToken := authBits !!! 2 |}.

(** ** Response envelope *)

Record TwilioException : Set := mkException {
  Code : Z;
  Detail : string;
  MoreInfo : string
}.

Record ResponseStatus : Set := mkStatus {
  Http : Z;
  Twilio : Z
}.

(** Modelled from the spec: the declaration of [TwilioResponse] is not part of
    [twirest.go].  The envelope holds the HTTP status code, the provider
    status code and an optional exception payload (code, detail, info URL);
    its resource payloads, which no function of [twirest.go] reads, are left
    out. *)
Record TwilioResponse : Set := mkTwilioResponse {
  Status : ResponseStatus;
  Exception : option TwilioException      (* [None] is the [nil] pointer *)
}.

(** [TwilioResponse{}] *)
Definition zeroResponse : TwilioResponse :=
  {| Status := {| Http := 0; Twilio := 0 |}; Exception := None |}.

(** [exceptionToErr] converts a response exception (if any) to an error. *)
Definition exceptionToErr (twir : TwilioResponse) : Z * option error :=
  match Exception twir with
  | Some e => (Code e, Some (Detail e +:+ " (" +:+ MoreInfo e +:+ ")"))
  | None => (0%Z, None)
  end.

Definition SetBasicAuth (r : HttpRequest) (username password : string) : HttpRequest :=
  {| Method := Method r; URL := URL r; Body := Body r;
     BasicAuth := Some (username, password); Header := Header r |}.

Definition HeaderSet (r : HttpRequest) (key value : string) : HttpRequest :=
  {| Method := Method r; URL := URL r; Body := Body r;
     BasicAuth := BasicAuth r; Header := <[key := value]> (Header r) |}.

Section Engine.

(** The library calls the engine makes: [url.Parse] inside
    [http.NewRequest] ([None] when the URL parses), the round trip of
    [http.Client.Do] and [xml.Unmarshal] into the envelope. *)
Variable parseURL : string → option error.
Variable RoundTrip : HttpRequest → HttpResponse + error.
Variable xmlUnmarshal : string → TwilioResponse → TwilioResponse.

(** [http.NewRequest]: [inl r] is [(r, nil)], [inr e] is [(nil, e)]. *)
Definition http_NewRequest (method url : string) (body : option string)
  : HttpRequest + error :=
  match parseURL url with
  | Some e => inr e
  | None => inl {| Method := method; URL := url; Body := body;
                   BasicAuth := None; Header := ∅ |}
  end.

(** [httpRequest] creates a REST request from the request struct and the
    account Sid. *)
Definition httpRequest (reqStruct : Descriptor) (accountSid : string)
  : HttpRequest + error :=
  match urlString reqStruct accountSid with
  | (_, Some err) => inr err
  | (url, None) =>
      let queryStr := queryString reqStruct in
      let requestBody := Some queryStr in
      match dtype reqStruct with
      (* DELETE query method *)
      | DeleteNotification | DeleteOutgoingCallerId
      | DeleteRecording | DeleteParticipant | DeleteQueue =>
          http_NewRequest "DELETE" url requestBody
      (* POST query method *)
      | SendMessage | MakeCall | ModifyCall | CreateQueue | ChangeQueue
      | DeQueue | UpdateParticipant | UpdateOutgoingCallerId
      | CreateIncomingPhoneNumber | AddOutgoingCallerId =>
          http_NewRequest "POST" url requestBody
      (* GET query method *)
      | _ =>
          let url := if nonEmpty queryStr then url +:+ "?" +:+ queryStr else url in
          http_NewRequest "GET" url None
      end
  end.

(** [httpclient.Do]: the second component is the list of the requests
    handed to the transport so far. *)
Definition httpclient_Do (req : HttpRequest) (net : list HttpRequest)
  : (HttpResponse + error) * list HttpRequest :=
  (RoundTrip req, net ++ [req]).

(** The authentication and the headers [Request] adds. *)
Definition prepare (twiClient : TwilioClient) (httpReq : HttpRequest) : HttpRequest :=
  let httpReq :=
    if nonEmpty (authUser twiClient)
    then SetBasicAuth httpReq (authUser twiClient) (authToken twiClient)
    else SetBasicAuth httpReq (accountSid twiClient) (authToken twiClient) in
  let httpReq :=
    HeaderSet httpReq "Content-Type" "application/x-www-form-urlencoded" in
  HeaderSet httpReq "Accept" "*/*".

(** [Request] makes a REST resource or action request and returns the
    response. *)
Definition Request (twiClient : TwilioClient) (reqStruct : Descriptor)
    (net : list HttpRequest)
  : (TwilioResponse * option error) * list HttpRequest :=
  let twiResp := zeroResponse in
  match httpRequest reqStruct (accountSid twiClient) with
  | inr err => ((twiResp, Some err), net)
  | inl httpReq =>
      let httpReq := prepare twiClient httpReq in
      match httpclient_Do httpReq net with
      | (inr err, net) => ((twiResp, Some err), net)
      | (inl response, net) =>
          (* save http status code to response struct *)
          let twiResp :=
            {| Status := {| Http := StatusCode response;
                            Twilio := Twilio (Status twiResp) |};
               Exception := Exception twiResp |} in
          let body := RespBody response in
          (* parse xml response into the response struct *)
          let twiResp := xmlUnmarshal body twiResp in
          let '(code, err) := exceptionToErr twiResp in
          (({| Status := {| Http := Http (Status twiResp); Twilio := code |};
               Exception := Exception twiResp |}, err), net)
      end
  end.

End Engine.

(** ** The specification's reading of the engine

    Definitions that follow the wording of the specification; the theorems
    below compare them with the functions above. *)

(** Query Encoder: the entries one field contributes.  A string field with
    a query tag and a non-empty value gives [tag] followed by the
    percent-encoded value; a repeated-string field with a query tag gives
    one such entry per element; every other field is omitted. *)
Definition spec_fieldEntries (f : StructField) : list string :=
  match Val f with
  | StringVal s =>
      if decide (Tag f ≠ "" ∧ s ≠ "") then [Tag f +:+ QueryEscape s] else []
  | SliceVal l =>
      if decide (Tag f ≠ "") then (λ v, Tag f +:+ QueryEscape v) <$> l else []
  | BoolVal _ => []
  end.

Definition spec_entriesOf (fs : list StructField) : list string :=
  flat_map spec_fieldEntries fs.

Definition spec_entries (d : Descriptor) : list string :=
  if inQueryCases (dtype d) then spec_entriesOf (dfields d) else [].

(** Entries each followed by the separator, as the loop accumulates them. *)
Fixpoint terminated (es : list string) : string :=
  match es with
  | [] => ""
  | e :: es => e +:+ "&" +:+ terminated es
  end.

(** Method Dispatcher: the classification table. *)
Definition deleteVariants : list ReqType :=
  [DeleteNotification; DeleteOutgoingCallerId; DeleteRecording;
   DeleteParticipant; DeleteQueue].

Definition postVariants : list ReqType :=
  [SendMessage; MakeCall; ModifyCall; CreateQueue; ChangeQueue; DeQueue;
   UpdateParticipant; AddOutgoingCallerId; UpdateOutgoingCallerId;
   CreateIncomingPhoneNumber].

Global Instance ReqType_eq_dec : EqDecision ReqType.
Proof. solve_decision. Defined.

Definition spec_method (t : ReqType) : string :=
  if decide (t ∈ deleteVariants) then "DELETE"
  else if decide (t ∈ postVariants) then "POST"
  else "GET".

(** Query Encoder, read independently of the code: the request types whose
    fields are encoded, and the percent-encoding of a value byte by byte.
    An unreserved byte stands for itself, a space is written [+], and any
    other byte is [%] followed by its code as two upper-case hexadecimal
    digits. *)
Definition spec_encodedTypes : list ReqType :=
  [SendMessage; Messages; MakeCall; Calls; ModifyCall; Accounts;
   Notifications; OutgoingCallerIds; Recordings; UsageRecords;
   CreateQueue; ChangeQueue; DeQueue; CreateIncomingPhoneNumber;
   Conferences; Participants; AvailablePhoneNumbers].

Definition spec_unreservedBytes : list ascii :=
  String.list_ascii_of_string
    "ABCDEFGHIJKLMNOPQRSTUVWXYZabcdefghijklmnopqrstuvwxyz0123456789-_.~".

Definition spec_isUnreserved (c : ascii) : bool :=
  existsb (Ascii.eqb c) spec_unreservedBytes.

Definition spec_hexDigit (n : nat) : ascii :=
  nth n (String.list_ascii_of_string "0123456789ABCDEF") "0"%char.

Definition spec_percentByte (c : ascii) : string :=
  if spec_isUnreserved c then String c ""
  else if Ascii.eqb c " " then "+"
  else String "%" (String (spec_hexDigit (nat_of_ascii c / 16))
                  (String (spec_hexDigit (nat_of_ascii c mod 16)) "")).

Fixpoint spec_percentEncode (v : string) : string :=
  match v with
  | "" => ""
  | String c v => spec_percentByte c +:+ spec_percentEncode v
  end.

Definition spec_emittedField (f : StructField) : list string :=
  match Val f with
  | StringVal s =>
      if decide (Tag f ≠ "" ∧ s ≠ "") then [Tag f +:+ spec_percentEncode s] else []
  | SliceVal l =>
      if decide (Tag f ≠ "") then (λ v, Tag f +:+ spec_percentEncode v) <$> l else []
  | BoolVal _ => []
  end.

Definition spec_emittedOf (fs : list StructField) : list string :=
  flat_map spec_emittedField fs.

Definition spec_emitted (d : Descriptor) : list string :=
  if decide (dtype d ∈ spec_encodedTypes) then spec_emittedOf (dfields d) else [].

(** URL Builder: the generic path, segment by segment. *)
Definition apiRoot : string := "https://api.twilio.com/" +:+ ApiVer +:+ "/Accounts".

Definition spec_resourceSeg (d : Descriptor) (accountId : string) : string :=
  match findField "resource" d with
  | Some f => "/" +:+ accountId +:+ Tag f
  | None => ""
  end.

Definition spec_sidSeg (d : Descriptor) : string :=
  match findField "Sid" d with
  | Some f => "/" +:+ reflect_String (Val f)
  | None => ""
  end.

Definition spec_subresourceSeg (d : Descriptor) : string :=
  match findField "subresource" d with
  | Some f => Tag f
  | None => ""
  end.

Definition spec_callSidSeg (d : Descriptor) : string :=
  match findField "CallSid" d with
  | Some f => if decide (Tag f = "") then "/" +:+ reflect_String (Val f) else ""
  | None => ""
  end.

Definition spec_path (d : Descriptor) (accountId : string) : string :=
  apiRoot +:+ spec_resourceSeg d accountId +:+ spec_sidSeg d
          +:+ spec_subresourceSeg d +:+ spec_callSidSeg d.

(** The generic part of [urlString], before the second type switch. *)
Definition basePath (reqStruct : Descriptor) (accSid : string) : string :=
  let m := fieldMap reqStruct in
  callSidPart m (subresourcePart m (sidPart m (resourcePart m accSid apiRoot))).

(** Go struct types have pairwise distinct field names. *)
Definition distinctNames (d : Descriptor) : Prop := NoDup (Name <$> dfields d).

(** The last field of a given name, which is the one [fieldMap] keeps. *)
Definition lastField (name : string) (fs : list StructField) : option StructField :=
  List.find (λ f, String.eqb (Name f) name) (rev fs).

(** Method Dispatcher: where the encoded query string is placed. *)
Definition spec_url (d : Descriptor) (accountId : string) : string :=
  let url := (urlString d accountId).1 in
  if decide (spec_method (dtype d) = "GET")
  then if decide (queryString d = "") then url
       else url +:+ "?" +:+ queryString d
  else url.

Definition spec_body (d : Descriptor) : option string :=
  if decide (spec_method (dtype d) = "GET") then None
  else Some (queryString d).

(** ** Sample requests

    Descriptors laid out like the request structs of the package, and
    stand-ins for the library calls, on which the theorems below are
    instantiated. *)

Definition sendMessageMedia : Descriptor :=
  mkDescriptor SendMessage
    [mkField "resource" "/Messages" (StringVal "");
     mkField "Text" "Body=" (StringVal "hi there");
     mkField "MediaUrl" "MediaUrl=" (SliceVal ["http://a/b"; "c&d"]);
     mkField "From" "From=" (StringVal "+15550100")].

Definition participantsOfCall : Descriptor :=
  mkDescriptor Participants
    [mkField "resource" "/Conferences" (StringVal "");
     mkField "Sid" "" (StringVal "CF12");
     mkField "subresource" "/Participants" (StringVal "");
     mkField "CallSid" "" (StringVal "CA34");
     mkField "Muted" "Muted=" (StringVal "true")].

Definition recordingOf (getRecording getMP3 : bool) : Descriptor :=
  mkDescriptor Recording
    [mkField "resource" "/Recordings" (StringVal "");
     mkField "Sid" "" (StringVal "RE01");
     mkField "GetRecording" "" (BoolVal getRecording);
     mkField "GetMP3" "" (BoolVal getMP3)].

Definition messageNoSid : Descriptor :=
  mkDescriptor Message
    [mkField "resource" "/Messages" (StringVal "");
     mkField "Sid" "" (StringVal "");
     mkField "Media" "" (BoolVal false);
     mkField "MediaSid" "" (StringVal "")].

Definition messagesTo : Descriptor :=
  mkDescriptor Messages
    [mkField "resource" "/Messages" (StringVal "");
     mkField "To" "To=" (StringVal "+15550100");
     mkField "From" "From=" (StringVal "")].

Definition deleteQueue : Descriptor :=
  mkDescriptor DeleteQueue
    [mkField "resource" "/Queues" (StringVal "");
     mkField "Sid" "" (StringVal "QU01")].

Definition updateParticipant : Descriptor :=
  mkDescriptor UpdateParticipant
    [mkField "resource" "/Conferences" (StringVal "");
     mkField "Sid" "" (StringVal "CF12");
     mkField "subresource" "/Participants" (StringVal "");
     mkField "CallSid" "" (StringVal "CA34");
     mkField "Muted" "Muted=" (StringVal "true")].

Definition sampleClient : TwilioClient :=
  {| accountSid := "AC00"; authUser := ""; authToken := "secret" |}.

(** Every URL parses. *)
Definition parseAny : string → option error := λ _, None.

(** A transport that answers every request with [401] and an error body. *)
Definition unauthorized : HttpRequest → HttpResponse + error :=
  λ _, inl {| StatusCode := 401; RespBody := "<TwilioResponse/>" |}.

(** A decoder that finds the exception of the error body. *)
Definition decodeAuthError : string → TwilioResponse → TwilioResponse :=
  λ _ twiResp,
    {| Status := Status twiResp;
       Exception := Some {| Code := 20003; Detail := "Authentication Error";
                            MoreInfo := "https://www.example.com/errors" |} |}.

(** ** Further functions and measuring devices *)

(** [stringIn] reports whether [a] is an element of the list. *)
Fixpoint stringIn (a : string) (l : list string) : bool :=
  match l with
  | [] => false
  | b :: l => if String.eqb b a then true else stringIn a l
  end.

(** The pieces of [s] between the occurrences of the byte [c]. *)
Fixpoint splitOn (c : ascii) (s : string) : list string :=
  match s with
  | "" => [""]
  | String a s =>
      if Ascii.eqb a c then "" :: splitOn c s
      else match splitOn c s with
           | [] => [String a ""]
           | w :: ws => String a w :: ws
           end
  end.

(** Every byte of [s] satisfies [p]. *)
Fixpoint allBytes (p : ascii → bool) (s : string) : bool :=
  match s with
  | "" => true
  | String a s => p a && allBytes p s
  end.

(** Value of an upper-case hexadecimal digit. *)
Definition unhex (c : ascii) : N :=
  if between "0" "9" c then N_of_ascii c - N_of_ascii "0"
  else N_of_ascii c - N_of_ascii "A" + 10.

(** The decoding of a query component: [+] is a space and [%XX] the byte
    with that hexadecimal code. *)
Fixpoint unescapeQuery (s : string) : string :=
  match s with
  | "" => ""
  | String c s' =>
      if Ascii.eqb c "+" then String " " (unescapeQuery s')
      else if Ascii.eqb c "%" then
        match s' with
        | String h (String l s'') =>
            String (ascii_of_N (16 * unhex h + unhex l)) (unescapeQuery s'')
        | _ => String c (unescapeQuery s')
        end
      else String c (unescapeQuery s')
  end.

(** The bytes [QueryEscape] can produce: the unreserved ones, [+] and [%]. *)
Definition unreserved (c : ascii) : bool := negb (shouldEscape c).

Definition queryByte (c : ascii) : bool :=
  unreserved c || Ascii.eqb c "+" || Ascii.eqb c "%".

(** Two encoded query strings put one after the other. *)
Definition joinQuery (q1 q2 : string) : string :=
  if decide (q1 = "") then q2
  else if decide (q2 = "") then q1
  else q1 +:+ "&" +:+ q2.

(** The user name [Request] authenticates with. *)
Definition authName (c : TwilioClient) : string :=
  if decide (authUser c = "") then accountSid c else authUser c.

(** The segment a non-empty string adds to the path. *)
Definition optSegment (s : string) : string :=
  if decide (s = "") then "" else "/" +:+ s.

(** The types with a case in the second type switch of [urlString]. *)
Definition suffixTypes : list ReqType :=
  [Recording; AvailablePhoneNumbers; Message; Call; UsageRecords;
   QueueMember; DeQueue].

Definition callOf (recordings notifications : bool) : Descriptor :=
  mkDescriptor Call
    [mkField "resource" "/Calls" (StringVal "");
     mkField "Sid" "" (StringVal "CA34");
     mkField "Recordings" "" (BoolVal recordings);
     mkField "Notifications" "" (BoolVal notifications)].

Definition messageMedia (media : bool) (mediaSid : string) : Descriptor :=
  mkDescriptor Message
    [mkField "resource" "/Messages" (StringVal "");
     mkField "Sid" "" (StringVal "MM01");
     mkField "Media" "" (BoolVal media);
     mkField "MediaSid" "" (StringVal mediaSid)].

Definition availableNumbers (country type : string) : Descriptor :=
  mkDescriptor AvailablePhoneNumbers
    [mkField "resource" "/AvailablePhoneNumbers" (StringVal "");
     mkField "CountryCode" "" (StringVal country);
     mkField "Type" "" (StringVal type);
     mkField "AreaCode" "AreaCode=" (StringVal "510")].

Definition usageRecords (sub : string) : Descriptor :=
  mkDescriptor UsageRecords
    [mkField "resource" "/Usage/Records" (StringVal "");
     mkField "SubResource" "" (StringVal sub);
     mkField "Category" "Category=" (StringVal "sms")].

Definition queueMember (front : bool) (callSid : string) : Descriptor :=
  mkDescriptor QueueMember
    [mkField "resource" "/Queues" (StringVal "");
     mkField "Sid" "" (StringVal "QU01");
     mkField "subresource" "/Members" (StringVal "");
     mkField "CallSid" "" (StringVal callSid);
     mkField "Front" "" (BoolVal front)].

(** A transport that cannot connect. *)
Definition refused : HttpRequest → HttpResponse + error :=
  λ _, inr "connection refused".

(** A parser that rejects every URL. *)
Definition parseNone : string → option error := λ _, Some "invalid URL".

(** * Properties *)

(** ** Byte strings *)

Module StrFacts.

Lemma app_cons (a : ascii) (s t : string) :
  String a s +:+ t = String a (s +:+ t).
Proof. reflexivity. Qed.

Lemma app_nil_r (s : string) : s +:+ "" = s.
Proof.
  induction s as [|a s IH]; [reflexivity|].
  rewrite app_cons. by f_equal.
Qed.

Lemma app_assoc (s t u : string) : (s +:+ t) +:+ u = s +:+ t +:+ u.
Proof.
  induction s as [|a s IH]; [reflexivity|].
  rewrite !app_cons. by f_equal.
Qed.

Lemma length_app (s t : string) :
  String.length (s +:+ t) = String.length s + String.length t.
Proof.
  induction s as [|a s IH]; [reflexivity|].
  rewrite app_cons. simpl. by f_equal.
Qed.

(** [(s + t)[:len(s)]] *)
Lemma substring_app_l (s t : string) :
  String.substring 0 (String.length s) (s +:+ t) = s.
Proof.
  induction s as [|a s IH].
  - by destruct t.
  - rewrite app_cons. simpl. by f_equal.
Qed.

Lemma count_app c (s t : string) :
  Str.count c (s +:+ t) = Str.count c s + Str.count c t.
Proof.
  induction s as [|a s IH]; [reflexivity|].
  rewrite app_cons. simpl. rewrite IH. lia.
Qed.

End StrFacts.

Lemma nonEmpty_true (s : string) : nonEmpty s = true ↔ s ≠ "".
Proof.
  unfold nonEmpty. destruct (String.eqb_spec s ""); simpl; split; congruence.
Qed.

Lemma nonEmpty_false (s : string) : nonEmpty s = false ↔ s = "".
Proof.
  unfold nonEmpty. destruct (String.eqb_spec s ""); simpl; split; congruence.
Qed.

(** ** QueryEscape *)

Lemma escapeByte_clean (c : ascii) :
  Str.count "&" (escapeByte c) = 0 ∧ Str.count " " (escapeByte c) = 0.
Proof. destruct c as [[] [] [] [] [] [] [] []]; by vm_compute. Qed.

Lemma QueryEscape_clean (v : string) :
  Str.count "&" (QueryEscape v) = 0 ∧ Str.count " " (QueryEscape v) = 0.
Proof.
  induction v as [|c v [IH1 IH2]]; [done|].
  simpl. rewrite !StrFacts.count_app, IH1, IH2.
  destruct (escapeByte_clean c) as [-> ->]. done.
Qed.

(** ** The loop of queryString *)

Lemma terminated_app (es fs : list string) :
  terminated (es ++ fs) = terminated es +:+ terminated fs.
Proof.
  induction es as [|e es IH]; [reflexivity|].
  simpl. rewrite IH. by rewrite !StrFacts.app_assoc.
Qed.

Lemma slice_loop (tag : string) (v2 : list string) (qryStr : string) :
  foldl (λ q v, q +:+ tag +:+ QueryEscape v +:+ "&") qryStr v2
  = qryStr +:+ terminated ((λ v, tag +:+ QueryEscape v) <$> v2).
Proof.
  revert qryStr. induction v2 as [|v v2 IH]; intros qryStr; simpl.
  - by rewrite StrFacts.app_nil_r.
  - rewrite IH. by rewrite !StrFacts.app_assoc.
Qed.

Lemma queryField_entries (qryStr : string) (fld : StructField) :
  queryField qryStr fld = qryStr +:+ terminated (spec_fieldEntries fld).
Proof.
  unfold queryField, spec_fieldEntries.
  destruct (Val fld) as [s|b|l]; simpl.
  - destruct (decide (Tag fld ≠ "" ∧ s ≠ "")) as [[Ht Hs]|Hn].
    + apply nonEmpty_true in Ht, Hs. rewrite Ht, Hs. simpl.
      by rewrite !StrFacts.app_assoc.
    + destruct (nonEmpty (Tag fld)) eqn:Ht, (nonEmpty s) eqn:Hs; simpl;
        rewrite ?StrFacts.app_nil_r; try done.
      apply nonEmpty_true in Ht, Hs. by destruct Hn.
  - by rewrite StrFacts.app_nil_r.
  - destruct (decide (Tag fld ≠ "")) as [Ht|Ht].
    + apply nonEmpty_true in Ht. rewrite Ht. simpl.
      destruct l as [|v l]; [by rewrite StrFacts.app_nil_r|].
      by rewrite slice_loop.
    + destruct (nonEmpty (Tag fld)) eqn:Ht'; simpl;
        rewrite ?StrFacts.app_nil_r; try done.
      apply nonEmpty_true in Ht'. done.
Qed.

Lemma field_loop (fs : list StructField) (qryStr : string) :
  foldl queryField qryStr fs = qryStr +:+ terminated (spec_entriesOf fs).
Proof.
  revert qryStr. induction fs as [|f fs IH]; intros qryStr; simpl.
  - by rewrite StrFacts.app_nil_r.
  - rewrite IH, queryField_entries. unfold spec_entriesOf. simpl.
    by rewrite terminated_app, StrFacts.app_assoc.
Qed.

Lemma terminated_concat (e : string) (es : list string) :
  terminated (e :: es) = String.concat "&" (e :: es) +:+ "&".
Proof.
  revert e. induction es as [|e' es IH]; intros e.
  - simpl. reflexivity.
  - change (terminated (e :: e' :: es)) with (e +:+ "&" +:+ terminated (e' :: es)).
    rewrite IH.
    change (String.concat "&" (e :: e' :: es))
      with (e +:+ "&" +:+ String.concat "&" (e' :: es)).
    by rewrite !StrFacts.app_assoc.
Qed.

Lemma trimLast_snoc (s : string) : trimLast (s +:+ "&") = s.
Proof.
  unfold trimLast. rewrite StrFacts.length_app.
  change (String.length "&") with 1.
  replace (0 <? String.length s + 1) with true
    by (symmetry; apply Nat.ltb_lt; lia).
  replace (String.length s + 1 - 1) with (String.length s) by lia.
  apply StrFacts.substring_app_l.
Qed.

Lemma trimLast_terminated (es : list string) :
  trimLast (terminated es) = String.concat "&" es.
Proof.
  destruct es as [|e es]; [reflexivity|].
  rewrite terminated_concat. apply trimLast_snoc.
Qed.

Lemma queryString_concat (d : Descriptor) :
  queryString d = String.concat "&" (spec_entries d).
Proof.
  unfold queryString, spec_entries.
  destruct (inQueryCases (dtype d)); [|reflexivity].
  rewrite field_loop. apply trimLast_terminated.
Qed.

(** A field without a query tag, or with an empty value, contributes
    nothing. *)
Lemma spec_fieldEntries_omitted (f : StructField) :
  Tag f = "" ∨ Val f = StringVal "" ∨ Val f = SliceVal [] ∨ (∃ b, Val f = BoolVal b) →
  spec_fieldEntries f = [].
Proof.
  unfold spec_fieldEntries.
  intros [Ht|[Hv|[Hv|[b Hv]]]]; try rewrite Hv; try done.
  - destruct (Val f); [rewrite decide_False|done|rewrite decide_False]; tauto.
  - rewrite decide_False; tauto.
  - by case_decide.
Qed.

Lemma spec_entriesOf_app (l1 l2 : list StructField) :
  spec_entriesOf (l1 ++ l2) = spec_entriesOf l1 ++ spec_entriesOf l2.
Proof. apply flat_map_app. Qed.

Lemma spec_entriesOf_cons (f : StructField) (l : list StructField) :
  spec_entriesOf (f :: l) = spec_fieldEntries f ++ spec_entriesOf l.
Proof. reflexivity. Qed.

Lemma spec_entriesOf_none (fs : list StructField) :
  (∀ f, f ∈ fs → spec_fieldEntries f = []) → spec_entriesOf fs = [].
Proof.
  induction fs as [|f fs IH]; intros H; [done|].
  rewrite spec_entriesOf_cons, H by apply list_elem_of_here.
  apply IH. intros g Hg. apply H. by apply list_elem_of_further.
Qed.

(** Every entry is the tag of its field followed by an escaped value. *)
Lemma spec_fieldEntries_count (c : ascii) (f : StructField) (e : string) :
  (∀ v, Str.count c (QueryEscape v) = 0) →
  Str.count c (Tag f) = 0 → e ∈ spec_fieldEntries f → Str.count c e = 0.
Proof.
  intros Hesc Ht. unfold spec_fieldEntries.
  destruct (Val f) as [s|b|l]; repeat case_decide;
    rewrite ?list_elem_of_fmap, ?list_elem_of_singleton, ?elem_of_nil;
    try done.
  - intros ->. rewrite StrFacts.count_app, Ht, Hesc. done.
  - intros (v & -> & _). rewrite StrFacts.count_app, Ht, Hesc. done.
Qed.

Lemma spec_entriesOf_count (c : ascii) (fs : list StructField) (e : string) :
  (∀ v, Str.count c (QueryEscape v) = 0) →
  (∀ f, f ∈ fs → Str.count c (Tag f) = 0) →
  e ∈ spec_entriesOf fs → Str.count c e = 0.
Proof.
  intros Hesc Ht He. unfold spec_entriesOf in He.
  apply list_elem_of_In, in_flat_map in He as (f & Hf & He).
  apply list_elem_of_In in Hf, He.
  apply (spec_fieldEntries_count c f); auto.
Qed.

Lemma concat_count_sep (es : list string) :
  (∀ e, e ∈ es → Str.count "&" e = 0) →
  Str.count "&" (String.concat "&" es) = pred (length es).
Proof.
  induction es as [|e es IH]; intros H; [done|].
  destruct es as [|e' es].
  - simpl. apply H, list_elem_of_here.
  - change (String.concat "&" (e :: e' :: es))
      with (e +:+ "&" +:+ String.concat "&" (e' :: es)).
    rewrite !StrFacts.count_app, IH, H.
    + reflexivity.
    + apply list_elem_of_here.
    + intros x Hx. apply H. by apply list_elem_of_further.
Qed.

Lemma concat_count_other (c : ascii) (es : list string) :
  Str.count c "&" = 0 →
  (∀ e, e ∈ es → Str.count c e = 0) →
  Str.count c (String.concat "&" es) = 0.
Proof.
  intros Hc. induction es as [|e es IH]; intros H; [done|].
  destruct es as [|e' es].
  - simpl. apply H, list_elem_of_here.
  - change (String.concat "&" (e :: e' :: es))
      with (e +:+ "&" +:+ String.concat "&" (e' :: es)).
    rewrite !StrFacts.count_app, IH, H, Hc.
    + reflexivity.
    + apply list_elem_of_here.
    + intros x Hx. apply H. by apply list_elem_of_further.
Qed.

(** ** The two readings of the encoder agree *)

Lemma QueryEscape_percentEncode (v : string) : QueryEscape v = spec_percentEncode v.
Proof.
  induction v as [|c v IH]; [done|]. simpl. rewrite IH. f_equal.
  destruct c as [[] [] [] [] [] [] [] []]; reflexivity.
Qed.

Lemma inQueryCases_encodedTypes (t : ReqType) :
  inQueryCases t = true ↔ t ∈ spec_encodedTypes.
Proof.
  unfold spec_encodedTypes. rewrite !elem_of_cons, elem_of_nil.
  destruct t; simpl; split; intros H; try done; try tauto;
    repeat (destruct H as [H|H]; [discriminate H|]); done.
Qed.

Lemma spec_fieldEntries_emitted (f : StructField) :
  spec_fieldEntries f = spec_emittedField f.
Proof.
  unfold spec_fieldEntries, spec_emittedField.
  destruct (Val f) as [s|b|l]; [|done|].
  - by rewrite QueryEscape_percentEncode.
  - case_decide; [|done]. apply list_fmap_ext. intros _ v _.
    by rewrite QueryEscape_percentEncode.
Qed.

Lemma spec_entriesOf_emitted (fs : list StructField) :
  spec_entriesOf fs = spec_emittedOf fs.
Proof.
  unfold spec_entriesOf, spec_emittedOf.
  induction fs as [|f fs IH]; [done|]. simpl.
  by rewrite IH, spec_fieldEntries_emitted.
Qed.

Lemma spec_entries_emitted (d : Descriptor) : spec_entries d = spec_emitted d.
Proof.
  unfold spec_entries, spec_emitted.
  destruct (inQueryCases (dtype d)) eqn:Hin.
  - apply inQueryCases_encodedTypes in Hin.
    rewrite decide_True by done. apply spec_entriesOf_emitted.
  - rewrite decide_False; [done|].
    intros Hin'%inQueryCases_encodedTypes. congruence.
Qed.

Lemma unescapeQuery_escapeByte (c : ascii) (s : string) :
  unescapeQuery (escapeByte c +:+ s) = String c (unescapeQuery s).
Proof. destruct c as [[] [] [] [] [] [] [] []]; reflexivity. Qed.

Lemma unescapeQuery_QueryEscape (v : string) : unescapeQuery (QueryEscape v) = v.
Proof.
  induction v as [|c v IH]; [done|].
  simpl. by rewrite unescapeQuery_escapeByte, IH.
Qed.

(** ** C2 *)

(** C2.  The query encoder is a total function to strings, and for every
    descriptor its output (3) is the emitted entries joined by [&] with no
    trailing separator, an entry being the tag of a string or
    repeated-string field of a request type the encoder serves, followed by
    the percent-encoding of the value: an unreserved byte as it is, a space
    as [+], any other byte as [%] and its two upper-case hexadecimal digits;
    (1) is unchanged by removing a field that has no query tag or whose
    value is the empty string or the empty sequence; (2) the encoding of a
    value is the percent-encoding just described, from which the value can
    be read back, and contains neither [&] nor a space, so that, when no
    tag contains one, the only [&] of the output are the separators and the
    output has no space; (4) is the empty string when no field qualifies. *)
Theorem queryString_encoding (d : Descriptor) :
  queryString d = String.concat "&" (spec_emitted d)
  ∧ (∀ v, QueryEscape v = spec_percentEncode v
          ∧ unescapeQuery (QueryEscape v) = v)
  ∧ queryString d = String.concat "&" (spec_entries d)
  ∧ (∀ l1 f l2,
       dfields d = l1 ++ f :: l2 →
       Tag f = "" ∨ Val f = StringVal "" ∨ Val f = SliceVal [] →
       queryString d = queryString (mkDescriptor (dtype d) (l1 ++ l2)))
  ∧ (∀ v, Str.count "&" (QueryEscape v) = 0 ∧ Str.count " " (QueryEscape v) = 0)
  ∧ ((∀ f, f ∈ dfields d →
           Str.count "&" (Tag f) = 0 ∧ Str.count " " (Tag f) = 0) →
     Str.count "&" (queryString d) = pred (length (spec_entries d))
     ∧ Str.count " " (queryString d) = 0)
  ∧ ((∀ f, f ∈ dfields d →
           Tag f = "" ∨ Val f = StringVal "" ∨ Val f = SliceVal []
           ∨ (∃ b, Val f = BoolVal b)) →
     queryString d = "").
Proof.
  split; [by rewrite queryString_concat, spec_entries_emitted|].
  split.
  { intros v. split; [apply QueryEscape_percentEncode|].
    apply unescapeQuery_QueryEscape. }
  split; [apply queryString_concat|].
  split.
  { intros l1 f l2 Hd Hf. rewrite !queryString_concat.
    unfold spec_entries. simpl. rewrite Hd.
    destruct (inQueryCases (dtype d)); [|done].
    rewrite !spec_entriesOf_app, spec_entriesOf_cons.
    rewrite (spec_fieldEntries_omitted f); [done|]. tauto. }
  split; [apply QueryEscape_clean|].
  split.
  { intros Htags. rewrite queryString_concat.
    assert (∀ c, (∀ v, Str.count c (QueryEscape v) = 0) →
                 (∀ f, f ∈ dfields d → Str.count c (Tag f) = 0) →
                 ∀ e, e ∈ spec_entries d → Str.count c e = 0) as Hent.
    { intros c Hesc Ht e. unfold spec_entries.
      destruct (inQueryCases (dtype d)); [|by rewrite elem_of_nil].
      by apply spec_entriesOf_count. }
    split.
    - apply concat_count_sep, Hent.
      + intros v. apply QueryEscape_clean.
      + intros f Hf. by apply Htags.
    - apply concat_count_other; [done|]. apply Hent.
      + intros v. apply QueryEscape_clean.
      + intros f Hf. by apply Htags. }
  intros Hnone. rewrite queryString_concat. unfold spec_entries.
  destruct (inQueryCases (dtype d)); [|done].
  rewrite spec_entriesOf_none; [done|].
  intros f Hf. apply spec_fieldEntries_omitted. by apply Hnone.
Qed.

Lemma queryString_encoding_witness :
  queryString sendMessageMedia
  = "Body=hi+there&MediaUrl=http%3A%2F%2Fa%2Fb&MediaUrl=c%26d&From=%2B15550100".
Proof.
  exact (eq_trans (proj1 (queryString_encoding sendMessageMedia)) eq_refl).
Defined.

(** ** C3 *)

(** C3.  For a descriptor of a request type the encoder serves, a
    repeated-string field with a query tag and a non-empty sequence
    contributes its tag once per element (one entry per element, not one
    comma-joined entry), each element percent-encoded, in sequence order,
    between the entries of the fields declared before it and those of the
    fields declared after it. *)
Theorem queryString_repeated (d : Descriptor)
    (l1 l2 : list StructField) (f : StructField) (vs : list string) :
  dtype d ∈ spec_encodedTypes →
  dfields d = l1 ++ f :: l2 →
  Val f = SliceVal vs → Tag f ≠ "" → vs ≠ [] →
  queryString d
  = String.concat "&"
      (spec_emittedOf l1 ++ ((λ v, Tag f +:+ spec_percentEncode v) <$> vs)
                         ++ spec_emittedOf l2)
  ∧ length (spec_emitted d)
    = length (spec_emittedOf l1) + length vs + length (spec_emittedOf l2).
Proof.
  intros Hin Hd Hv Ht _.
  assert (spec_emitted d
          = spec_emittedOf l1 ++ ((λ v, Tag f +:+ spec_percentEncode v) <$> vs)
                              ++ spec_emittedOf l2) as Hem.
  { unfold spec_emitted. rewrite decide_True by done. rewrite Hd.
    unfold spec_emittedOf. rewrite flat_map_app. simpl.
    unfold spec_emittedField at 2. rewrite Hv. by rewrite decide_True. }
  split.
  - by rewrite queryString_concat, spec_entries_emitted, Hem.
  - rewrite Hem, !length_app, length_fmap. lia.
Qed.

Lemma queryString_repeated_witness :
  queryString sendMessageMedia
  = "Body=hi+there&MediaUrl=http%3A%2F%2Fa%2Fb&MediaUrl=c%26d&From=%2B15550100"
  ∧ length (spec_emitted sendMessageMedia) = 4.
Proof.
  refine (_ (queryString_repeated sendMessageMedia
               [mkField "resource" "/Messages" (StringVal "");
                mkField "Text" "Body=" (StringVal "hi there")]
               [mkField "From" "From=" (StringVal "+15550100")]
               (mkField "MediaUrl" "MediaUrl=" (SliceVal ["http://a/b"; "c&d"]))
               ["http://a/b"; "c&d"] _ _ _ _ _));
    [ intros [H1 H2]; split; [exact H1 | exact H2]
    | apply (bool_decide_unpack _); by vm_compute
    | reflexivity | reflexivity | discriminate | discriminate ].
Defined.

(** ** C10 *)

(** The fetch and delete request types the type switches name are outside
    the case list of the encoder. *)
Lemma fetch_delete_outside_cases :
  Forall (λ t, inQueryCases t = false)
    [Message; Call; Recording; QueueMember; OtherStruct "Queue";
     DeleteNotification; DeleteOutgoingCallerId; DeleteRecording;
     DeleteParticipant; DeleteQueue].
Proof. repeat constructor. Qed.

(** ** The field map of urlString *)

Lemma lastField_snoc (n : string) (fs : list StructField) (f : StructField) :
  lastField n (fs ++ [f])
  = if String.eqb (Name f) n then Some f else lastField n fs.
Proof. unfold lastField. by rewrite rev_unit. Qed.

Lemma foldl_fieldMap_lookup (n : string) (fs : list StructField) :
  foldl (λ m fld, <[Name fld := (Tag fld, reflect_String (Val fld))]> m)
        (∅ : gmap string (string * string)) fs !! n
  = (λ f, (Tag f, reflect_String (Val f))) <$> lastField n fs.
Proof.
  induction fs as [|f fs IH] using rev_ind; [done|].
  rewrite foldl_app, lastField_snoc. simpl.
  destruct (String.eqb_spec (Name f) n) as [->|Hne].
  - by rewrite lookup_insert_eq.
  - by rewrite lookup_insert_ne.
Qed.

Lemma fieldMap_lookup (d : Descriptor) (n : string) :
  fieldMap d !! n
  = (λ f, (Tag f, reflect_String (Val f))) <$> lastField n (dfields d).
Proof. apply foldl_fieldMap_lookup. Qed.

Lemma lastField_Some (n : string) (fs : list StructField) (f : StructField) :
  lastField n fs = Some f → f ∈ fs ∧ Name f = n.
Proof.
  unfold lastField. intros [Hin Heq]%find_some.
  apply in_rev, list_elem_of_In in Hin. by apply String.eqb_eq in Heq.
Qed.

Lemma lastField_declared (n : string) (fs : list StructField) (f : StructField) :
  f ∈ fs → Name f = n → is_Some (lastField n fs).
Proof.
  intros Hin Hn. unfold lastField.
  destruct (find _ (rev fs)) as [g|] eqn:Hfind; [by eexists|].
  assert (In f (rev fs)) as Hrev.
  { apply in_rev. rewrite rev_involutive. by apply list_elem_of_In. }
  apply (find_none _ _ Hfind f) in Hrev.
  apply String.eqb_neq in Hrev. done.
Qed.

Lemma find_snoc {A} (p : A → bool) (l : list A) (x : A) :
  find p (l ++ [x])
  = match find p l with
    | Some y => Some y
    | None => if p x then Some x else None
    end.
Proof.
  induction l as [|a l IH]; simpl; [done|]. by destruct (p a).
Qed.

(** With distinct field names the field a name selects is the one the map
    holds. *)
Lemma lastField_find (n : string) (fs : list StructField) :
  NoDup (Name <$> fs) →
  lastField n fs = find (λ f, String.eqb (Name f) n) fs.
Proof.
  induction fs as [|f fs IH]; [done|].
  rewrite fmap_cons, NoDup_cons. intros [Hnotin Hnd].
  unfold lastField in *. simpl rev. rewrite find_snoc, IH by done. simpl.
  destruct (String.eqb_spec (Name f) n) as [Heq|Hne].
  - destruct (find _ fs) as [g|] eqn:Hfind; [|done].
    apply find_some in Hfind as [Hin Hg]. apply String.eqb_eq in Hg.
    destruct Hnotin. rewrite Heq, <- Hg.
    apply list_elem_of_fmap. exists g. split; [done|]. by apply list_elem_of_In.
  - by destruct (find _ fs).
Qed.

Lemma fieldMap_findField (d : Descriptor) (n : string) :
  distinctNames d →
  fieldMap d !! n = (λ f, (Tag f, reflect_String (Val f))) <$> findField n d.
Proof.
  intros Hnd. rewrite fieldMap_lookup. unfold findField.
  by rewrite lastField_find.
Qed.

(** ** C6 *)

Lemma urlString_base (d : Descriptor) (acc : string) :
  (urlString d acc).1 = urlSuffix d (basePath d acc).
Proof. reflexivity. Qed.

(** The second type switch only ever appends to the URL. *)
Lemma urlSuffix_appends (d : Descriptor) (url : string) :
  ∃ sfx, urlSuffix d url = url +:+ sfx.
Proof.
  unfold urlSuffix.
  destruct (dtype d);
    repeat match goal with
           | |- context [if ?b then _ else _] => destruct b
           end; simpl;
    rewrite ?StrFacts.app_assoc;
    first [by eexists | by exists ""; rewrite StrFacts.app_nil_r].
Qed.

Lemma basePath_spec_path (d : Descriptor) (acc : string) :
  distinctNames d → basePath d acc = spec_path d acc.
Proof.
  intros Hnd.
  unfold basePath, spec_path, callSidPart, subresourcePart, sidPart,
    resourcePart, spec_resourceSeg, spec_sidSeg, spec_subresourceSeg,
    spec_callSidSeg.
  rewrite !fieldMap_findField by done.
  destruct (findField "resource" d) as [fr|], (findField "Sid" d) as [fs|],
    (findField "subresource" d) as [fu|], (findField "CallSid" d) as [fc|];
    simpl;
    try (destruct (String.eqb_spec (Tag fc) "") as [Ht|Ht];
         [rewrite (decide_True (P := Tag fc = "")) by done
         |rewrite (decide_False (P := Tag fc = "")) by done]);
    rewrite ?StrFacts.app_assoc, ?StrFacts.app_nil_r; reflexivity.
Qed.

(** C6.  For every descriptor (a struct, so with distinct field names) and
    account id, the built URL is the API root, the API version and
    [/Accounts], followed in this order by [/] + account id + the tag of the
    resource field (if declared), [/] + the Sid value (if declared), the tag
    of the subresource field (if declared) and [/] + the CallSid value (if
    declared with an empty tag); the type-specific suffix rules are applied
    to that path and only append to it. *)
Theorem urlString_path (d : Descriptor) (acc : string) :
  distinctNames d →
  (urlString d acc).1 = urlSuffix d (spec_path d acc)
  ∧ Str.starts_with (urlString d acc).1 (spec_path d acc)
  ∧ Str.starts_with (spec_path d acc) "https://api.twilio.com/2010-04-01/Accounts".
Proof.
  intros Hnd. rewrite urlString_base, basePath_spec_path by done.
  split; [done|]. split.
  - destruct (urlSuffix_appends d (spec_path d acc)) as [sfx ->]. by exists sfx.
  - unfold spec_path. eexists. reflexivity.
Qed.

Lemma urlString_path_witness :
  (urlString participantsOfCall "AC00").1
  = urlSuffix participantsOfCall
      "https://api.twilio.com/2010-04-01/Accounts/AC00/Conferences/CF12/Participants/CA34"
  ∧ Str.starts_with (urlString participantsOfCall "AC00").1
      (spec_path participantsOfCall "AC00")
  ∧ Str.starts_with (spec_path participantsOfCall "AC00")
      "https://api.twilio.com/2010-04-01/Accounts".
Proof.
  apply (urlString_path participantsOfCall "AC00").
  unfold distinctNames. apply (bool_decide_unpack _). by vm_compute.
Defined.

(** ** C7 *)

Lemma urlString_Recording_suffix (d : Descriptor) (acc : string) :
  dtype d = Recording →
  (urlString d acc).1
  = basePath d acc +:+
      (if boolField "GetRecording" d
       then if boolField "GetMP3" d then ".mp3" else ""
       else ".json").
Proof.
  intros Ht. rewrite urlString_base. unfold urlSuffix. rewrite Ht.
  destruct (boolField "GetRecording" d), (boolField "GetMP3" d); simpl;
    by rewrite ?StrFacts.app_nil_r.
Qed.

(** C7.  For the recording-fetch descriptor the built URL ends in [.json]
    when [GetRecording] is unset; it is the generic path, with no suffix,
    when [GetRecording] is set and [GetMP3] is unset; it ends in [.mp3] when
    both are set. *)
Theorem urlString_Recording (d : Descriptor) (acc : string) :
  dtype d = Recording →
  (boolField "GetRecording" d = false →
   Str.ends_with (urlString d acc).1 ".json"
   ∧ (urlString d acc).1 = basePath d acc +:+ ".json")
  ∧ (boolField "GetRecording" d = true → boolField "GetMP3" d = false →
     (urlString d acc).1 = basePath d acc)
  ∧ (boolField "GetRecording" d = true → boolField "GetMP3" d = true →
     Str.ends_with (urlString d acc).1 ".mp3"
     ∧ (urlString d acc).1 = basePath d acc +:+ ".mp3").
Proof.
  intros Ht. rewrite urlString_Recording_suffix by done.
  repeat split; intros; subst;
    repeat match goal with H : boolField _ _ = _ |- _ => rewrite H end;
    first [by eexists | by rewrite StrFacts.app_nil_r | done].
Qed.

Lemma urlString_Recording_witness :
  (urlString (recordingOf false false) "AC00").1
  = "https://api.twilio.com/2010-04-01/Accounts/AC00/Recordings/RE01.json"
  ∧ (urlString (recordingOf true false) "AC00").1
    = "https://api.twilio.com/2010-04-01/Accounts/AC00/Recordings/RE01"
  ∧ (urlString (recordingOf true true) "AC00").1
    = "https://api.twilio.com/2010-04-01/Accounts/AC00/Recordings/RE01.mp3".
Proof.
  split; [|split].
  - exact (proj2 (proj1 (urlString_Recording (recordingOf false false) "AC00"
                           eq_refl) eq_refl)).
  - exact (proj1 (proj2 (urlString_Recording (recordingOf true false) "AC00"
                           eq_refl)) eq_refl eq_refl).
  - exact (proj2 (proj2 (proj2 (urlString_Recording (recordingOf true true) "AC00"
                                  eq_refl)) eq_refl eq_refl)).
Defined.

(** ** C9 *)

(** C9.  [NewClient] returns a client exactly when it is given two or three
    credentials: (account id, auth token), or (account id, API-key id,
    API-key secret), the key id becoming the user name; for any other number
    of arguments it returns the construction error and no client. *)
Theorem NewClient_arity (authBits : list string) :
  ((∃ c, NewClient authBits = inl c)
   ↔ length authBits = 2 ∨ length authBits = 3)
  ∧ (length authBits ≠ 2 → length authBits ≠ 3 →
     NewClient authBits = inr "2 or 3 arguments only")
  ∧ (∀ sid token, authBits = [sid; token] →
       NewClient authBits
       = inl {| accountSid := sid; authUser := ""; authToken := token |})
  ∧ (∀ sid key secret, authBits = [sid; key; secret] →
       NewClient authBits
       = inl {| accountSid := sid; authUser := key; authToken := secret |}).
Proof.
  split; [|split; [|split]].
  - destruct authBits as [|a [|b [|c [|e l]]]]; simpl; split;
      first [by intros [? ?] | intros [?|?]; lia | by eexists
            | intros _; lia].
  - destruct authBits as [|a [|b [|c [|e l]]]]; simpl; intros; try done; lia.
  - by intros sid token ->.
  - by intros sid key secret ->.
Qed.

(** ** The engine *)

Section EngineFacts.

Variable parseURL : string → option error.
Variable RoundTrip : HttpRequest → HttpResponse + error.
Variable xmlUnmarshal : string → TwilioResponse → TwilioResponse.

Lemma spec_method_cases (t : ReqType) :
  (spec_method t = "DELETE" ↔ t ∈ deleteVariants)
  ∧ (spec_method t = "POST" ↔ t ∈ postVariants)
  ∧ (spec_method t = "GET" ↔ (t ∉ deleteVariants) ∧ (t ∉ postVariants)).
Proof.
  unfold spec_method.
  destruct (decide (t ∈ deleteVariants)) as [Hd|Hd];
    [|destruct (decide (t ∈ postVariants)) as [Hp|Hp]].
  - repeat split; try done; try tauto.
    intros Hp. exfalso. revert Hd Hp. unfold deleteVariants, postVariants.
    rewrite !elem_of_cons, !elem_of_nil. intros H1 H2.
    repeat match goal with H : _ ∨ _ |- _ => destruct H end;
      congruence.
  - repeat split; try done; tauto.
  - repeat split; try done; tauto.
Qed.

(** The type switch of [httpRequest] against the classification table. *)
Lemma httpRequest_spec (d : Descriptor) (acc : string) :
  httpRequest parseURL d acc
  = match (urlString d acc).2 with
    | Some err => inr err
    | None => http_NewRequest parseURL (spec_method (dtype d))
                (spec_url d acc) (spec_body d)
    end.
Proof.
  unfold httpRequest, spec_url, spec_body.
  destruct (urlString d acc) as [url [err|]]; [done|]. simpl.
  assert (∀ (u : string) q, (if nonEmpty q then u +:+ "?" +:+ q else u)
                 = (if decide (q = "") then u else u +:+ "?" +:+ q)) as Hq.
  { intros u q. destruct (decide (q = "")) as [->|Hne]; [done|].
    apply nonEmpty_true in Hne. by rewrite Hne. }
  destruct (dtype d); rewrite ?Hq; reflexivity.
Qed.

Lemma http_NewRequest_inl (method url : string) (body : option string)
    (r : HttpRequest) :
  http_NewRequest parseURL method url body = inl r →
  parseURL url = None
  ∧ r = {| Method := method; URL := url; Body := body;
           BasicAuth := None; Header := ∅ |}.
Proof.
  unfold http_NewRequest. destruct (parseURL url); [done|].
  intros [= <-]. done.
Qed.

Lemma httpRequest_inl (d : Descriptor) (acc : string) (r : HttpRequest) :
  httpRequest parseURL d acc = inl r →
  (urlString d acc).2 = None
  ∧ Method r = spec_method (dtype d)
  ∧ URL r = spec_url d acc
  ∧ Body r = spec_body d.
Proof.
  rewrite httpRequest_spec.
  destruct (urlString d acc).2; [done|].
  intros [_ ->]%http_NewRequest_inl. done.
Qed.

(** ** C4 *)

(** C4.  Whenever the URL of a descriptor builds and parses, [httpRequest]
    yields a request, and its method is DELETE exactly for the five delete
    types, POST exactly for the ten create / modify types, and GET for every
    other type. *)
Theorem httpRequest_method (d : Descriptor) (acc : string) :
  (urlString d acc).2 = None →
  parseURL (spec_url d acc) = None →
  ∃ r, httpRequest parseURL d acc = inl r
       ∧ Method r = spec_method (dtype d)
       ∧ (Method r = "DELETE" ↔ dtype d ∈ deleteVariants)
       ∧ (Method r = "POST" ↔ dtype d ∈ postVariants)
       ∧ (Method r = "GET" ↔
            (dtype d ∉ deleteVariants) ∧ (dtype d ∉ postVariants)).
Proof.
  intros Hurl Hparse. rewrite httpRequest_spec, Hurl.
  unfold http_NewRequest. rewrite Hparse.
  eexists. split; [reflexivity|]. simpl. split; [done|].
  apply spec_method_cases.
Qed.

(** ** C5 *)

(** C5.  In a request built for a descriptor classified as GET the encoded
    query string, when non-empty, follows the URL after [?] and there is no
    body; in one built for a descriptor classified as POST or DELETE the
    encoded query string is the body and the URL is the built URL alone. *)
Theorem httpRequest_placement (d : Descriptor) (acc : string) (r : HttpRequest) :
  httpRequest parseURL d acc = inl r →
  Method r = spec_method (dtype d)
  ∧ ((Method r = "GET"
      ∧ Body r = None
      ∧ URL r = if decide (queryString d = "") then (urlString d acc).1
                else (urlString d acc).1 +:+ "?" +:+ queryString d)
     ∨ ((Method r = "POST" ∨ Method r = "DELETE")
        ∧ Body r = Some (queryString d)
        ∧ URL r = (urlString d acc).1)).
Proof.
  intros (_ & Hm & Hu & Hb)%httpRequest_inl.
  split; [done|]. rewrite Hm, Hu, Hb. unfold spec_url, spec_body, spec_method.
  destruct (decide (dtype d ∈ deleteVariants));
    [|destruct (decide (dtype d ∈ postVariants))]; simpl; auto.
Qed.

(** ** C10 *)

(** C10.  For a descriptor whose type is outside the case list of the
    encoder the encoded query string is empty whatever its fields hold, so a
    request built for it has the built URL alone and no body or an empty
    one. *)
Theorem queryString_outside_cases (d : Descriptor) :
  inQueryCases (dtype d) = false →
  queryString d = ""
  ∧ ∀ acc r, httpRequest parseURL d acc = inl r →
             URL r = (urlString d acc).1
             ∧ (Body r = None ∨ Body r = Some "").
Proof.
  intros Hout.
  assert (queryString d = "") as Hq by (unfold queryString; by rewrite Hout).
  split; [done|].
  intros acc r (_ & _ & -> & ->)%httpRequest_inl.
  unfold spec_url, spec_body. rewrite Hq.
  destruct (decide (spec_method (dtype d) = "GET")); auto.
Qed.

(** ** C1 *)

Lemma urlString_empty_Sid (d : Descriptor) (acc : string) (f : StructField) :
  f ∈ dfields d → Name f = "Sid" →
  (∀ g, g ∈ dfields d → Name g = "Sid" → Val g = StringVal "") →
  (urlString d acc).2 = Some "required field missing".
Proof.
  intros Hin Hn Hempty. unfold urlString, sidErr. simpl.
  rewrite fieldMap_lookup.
  destruct (lastField_declared "Sid" (dfields d) f Hin Hn) as [g Hg].
  rewrite Hg. simpl.
  apply lastField_Some in Hg as [Hgin Hgn].
  by rewrite (Hempty g Hgin Hgn).
Qed.

(** C1.  If the descriptor declares a [Sid] field and its value is empty,
    [urlString] fails with "required field missing", [httpRequest] builds no
    request, and [Request] returns that error with the empty envelope
    without handing anything to the transport. *)
Theorem Request_empty_Sid (twiClient : TwilioClient) (d : Descriptor)
    (f : StructField) (net : list HttpRequest) :
  f ∈ dfields d → Name f = "Sid" →
  (∀ g, g ∈ dfields d → Name g = "Sid" → Val g = StringVal "") →
  (urlString d (accountSid twiClient)).2 = Some "required field missing"
  ∧ httpRequest parseURL d (accountSid twiClient) = inr "required field missing"
  ∧ Request parseURL RoundTrip xmlUnmarshal twiClient d net
    = ((zeroResponse, Some "required field missing"), net).
Proof.
  intros Hin Hn Hempty.
  pose proof (urlString_empty_Sid d (accountSid twiClient) f Hin Hn Hempty) as Herr.
  assert (httpRequest parseURL d (accountSid twiClient)
          = inr "required field missing") as Hreq.
  { rewrite httpRequest_spec. by rewrite Herr. }
  split; [done|]. split; [done|].
  unfold Request. by rewrite Hreq.
Qed.

(** ** The answer of the transport *)

(** When the request is built and the transport answers, [Request] hands
    that request to the transport, decodes the body into the envelope that
    holds the status code received, and takes the provider code and the
    error from the decoded exception. *)
Lemma Request_decoded (twiClient : TwilioClient) (d : Descriptor)
    (net : list HttpRequest) (httpReq : HttpRequest) (response : HttpResponse) :
  httpRequest parseURL d (accountSid twiClient) = inl httpReq →
  RoundTrip (prepare twiClient httpReq) = inl response →
  let decoded :=
    xmlUnmarshal (RespBody response)
      {| Status := {| Http := StatusCode response; Twilio := 0 |};
         Exception := None |} in
  Request parseURL RoundTrip xmlUnmarshal twiClient d net
  = (({| Status := {| Http := Http (Status decoded);
                      Twilio := (exceptionToErr decoded).1 |};
         Exception := Exception decoded |},
      (exceptionToErr decoded).2),
     net ++ [prepare twiClient httpReq]).
Proof.
  intros Hreq Hdo decoded. unfold Request, httpclient_Do.
  rewrite Hreq, Hdo. simpl. fold decoded. by destruct (exceptionToErr decoded).
Qed.

End EngineFacts.

(** ** Instances *)

Lemma httpRequest_method_witness :
  ∃ r, httpRequest parseAny deleteQueue "AC00" = inl r
       ∧ Method r = spec_method (dtype deleteQueue)
       ∧ (Method r = "DELETE" ↔ dtype deleteQueue ∈ deleteVariants)
       ∧ (Method r = "POST" ↔ dtype deleteQueue ∈ postVariants)
       ∧ (Method r = "GET" ↔
            (dtype deleteQueue ∉ deleteVariants)
            ∧ (dtype deleteQueue ∉ postVariants)).
Proof.
  apply (httpRequest_method parseAny deleteQueue "AC00"); reflexivity.
Defined.

Lemma httpRequest_placement_witness :
  let r := {| Method := "GET";
              URL := "https://api.twilio.com/2010-04-01/Accounts/AC00/Messages?To=%2B15550100";
              Body := None; BasicAuth := None; Header := ∅ |} in
  httpRequest parseAny messagesTo "AC00" = inl r
  ∧ Method r = spec_method (dtype messagesTo)
  ∧ ((Method r = "GET"
      ∧ Body r = None
      ∧ URL r = if decide (queryString messagesTo = "")
                then (urlString messagesTo "AC00").1
                else (urlString messagesTo "AC00").1 +:+ "?" +:+ queryString messagesTo)
     ∨ ((Method r = "POST" ∨ Method r = "DELETE")
        ∧ Body r = Some (queryString messagesTo)
        ∧ URL r = (urlString messagesTo "AC00").1)).
Proof.
  intros r. split; [reflexivity|].
  apply (httpRequest_placement parseAny messagesTo "AC00" r). reflexivity.
Defined.

Lemma queryString_outside_cases_witness :
  queryString updateParticipant = ""
  ∧ ∀ acc r, httpRequest parseAny updateParticipant acc = inl r →
             URL r = (urlString updateParticipant acc).1
             ∧ (Body r = None ∨ Body r = Some "").
Proof.
  apply (queryString_outside_cases parseAny updateParticipant). reflexivity.
Defined.

Lemma Request_empty_Sid_witness :
  (urlString messageNoSid (accountSid sampleClient)).2
  = Some "required field missing"
  ∧ httpRequest parseAny messageNoSid (accountSid sampleClient)
    = inr "required field missing"
  ∧ Request parseAny unauthorized decodeAuthError sampleClient messageNoSid []
    = ((zeroResponse, Some "required field missing"), []).
Proof.
  apply (Request_empty_Sid parseAny unauthorized decodeAuthError sampleClient
           messageNoSid (mkField "Sid" "" (StringVal "")) []).
  - simpl. apply list_elem_of_further, list_elem_of_here.
  - reflexivity.
  - intros g Hg Hn. simpl in Hg.
    repeat (apply elem_of_cons in Hg as [->|Hg]; [first [reflexivity | discriminate Hn]|]).
    by apply elem_of_nil in Hg.
Defined.

(** ** Sample runs *)

Example QueryEscape_reserved :
  QueryEscape "a b&c=d/~-_.%" = "a+b%26c%3Dd%2F~-_.%25".
Proof. reflexivity. Qed.

Example queryString_messagesTo : queryString messagesTo = "To=%2B15550100".
Proof. reflexivity. Qed.

Example queryString_updateParticipant : queryString updateParticipant = "".
Proof. reflexivity. Qed.

Example urlString_participantsOfCall :
  urlString participantsOfCall "AC00"
  = ("https://api.twilio.com/2010-04-01/Accounts/AC00/Conferences/CF12/Participants/CA34",
     None).
Proof. reflexivity. Qed.

Example urlString_messageNoSid :
  urlString messageNoSid "AC00"
  = ("https://api.twilio.com/2010-04-01/Accounts/AC00/Messages/",
     Some "required field missing").
Proof. reflexivity. Qed.

Example Request_unauthorized :
  (Request parseAny unauthorized decodeAuthError sampleClient messagesTo []).1
  = ({| Status := {| Http := 401; Twilio := 20003 |};
        Exception := Some {| Code := 20003; Detail := "Authentication Error";
                             MoreInfo := "https://www.example.com/errors" |} |},
     Some "Authentication Error (https://www.example.com/errors)").
Proof. reflexivity. Qed.

Example NewClient_one : NewClient ["AC00"] = inr "2 or 3 arguments only".
Proof. reflexivity. Qed.

Example NewClient_key :
  NewClient ["AC00"; "SK01"; "secret"]
  = inl {| accountSid := "AC00"; authUser := "SK01"; authToken := "secret" |}.
Proof. reflexivity. Qed.

(** * Further properties of the engine *)

(** Distinctness of the field names of a given struct, by computation. *)
Ltac distinct_names :=
  unfold distinctNames; apply (bool_decide_unpack _); by vm_compute.

(** ** stringIn and required *)

(** X1.  [stringIn a l] is true exactly when [a] is an element of [l]. *)
Theorem stringIn_elem (a : string) (l : list string) :
  stringIn a l = true ↔ a ∈ l.
Proof.
  induction l as [|b l IH]; simpl.
  - rewrite elem_of_nil. split; [discriminate|tauto].
  - rewrite elem_of_cons.
    destruct (String.eqb_spec b a) as [->|Hne]; [tauto|].
    rewrite IH. split; [tauto|]. intros [Heq|Hin]; [congruence|done].
Qed.

(** X2.  [required] returns [nil] exactly when none of its arguments is the
    empty string, and otherwise the error "required field missing". *)
Theorem required_missing (rs : list string) :
  (required rs = None ↔ "" ∉ rs)
  ∧ (required rs = Some "required field missing" ↔ "" ∈ rs)
  ∧ (∀ e, required rs = Some e → e = "required field missing").
Proof.
  induction rs as [|s rs (IHn & IHs & IHe)]; simpl.
  - rewrite elem_of_nil. repeat split; try done. tauto.
  - rewrite not_elem_of_cons, elem_of_cons.
    destruct (String.eqb_spec s "") as [->|Hne].
    + repeat split; try done; try tauto. by intros e [= <-].
    + rewrite IHn, IHs. repeat split; try tauto; try done.
      all: intros [Heq|Hin]; [congruence|done].
Qed.

(** ** The field map *)

(** X3.  The map [urlString] builds has no entry for a name exactly when no
    field has that name, and, the field names being distinct, holds for
    every field its tag and the string [reflect] gives for its value. *)
Theorem fieldMap_declared (d : Descriptor) :
  (∀ n, fieldMap d !! n = None ↔ ∀ f, f ∈ dfields d → Name f ≠ n)
  ∧ (distinctNames d →
     ∀ f, f ∈ dfields d →
          fieldMap d !! Name f = Some (Tag f, reflect_String (Val f))).
Proof.
  split.
  - intros n. rewrite fieldMap_lookup.
    destruct (lastField n (dfields d)) as [g|] eqn:Hg; simpl.
    + apply lastField_Some in Hg as [Hin Hn].
      split; [done|]. intros H. by destruct (H g Hin).
    + split; [|done]. intros _ f Hin Hn.
      destruct (lastField_declared n (dfields d) f Hin Hn) as [g Hg'].
      congruence.
  - intros Hnd f Hin. rewrite fieldMap_findField by done.
    unfold findField. unfold distinctNames in Hnd.
    induction (dfields d) as [|g fs IH]; [by apply elem_of_nil in Hin|].
    rewrite fmap_cons, NoDup_cons in Hnd. destruct Hnd as [Hnotin Hnd].
    simpl. apply elem_of_cons in Hin as [->|Hin].
    + by rewrite String.eqb_refl.
    + destruct (String.eqb_spec (Name g) (Name f)) as [Heq|Hne]; [|by apply IH].
      destruct Hnotin. rewrite Heq. apply list_elem_of_fmap. by exists f.
Qed.

Lemma fieldMap_declared_witness :
  fieldMap participantsOfCall !! "subresource" = Some ("/Participants", "").
Proof.
  refine (proj2 (fieldMap_declared participantsOfCall) _
            (mkField "subresource" "/Participants" (StringVal "")) _).
  - distinct_names.
  - simpl. do 2 apply list_elem_of_further. apply list_elem_of_here.
Defined.

(** ** The error of urlString *)

(** X4.  For a struct (distinct field names) [urlString] returns an error
    exactly when a field [Sid] is declared and [reflect] gives the empty
    string for it; the error is then "required field missing".  A struct
    without a [Sid] field, or with a non-empty one, builds without error. *)
Theorem urlString_error (d : Descriptor) (acc : string) :
  distinctNames d →
  (urlString d acc).2
  = match findField "Sid" d with
    | Some f => if decide (reflect_String (Val f) = "")
                then Some "required field missing" else None
    | None => None
    end.
Proof.
  intros Hnd. unfold urlString, sidErr. simpl.
  rewrite fieldMap_findField by done.
  destruct (findField "Sid" d) as [f|]; simpl; [|done].
  destruct (String.eqb_spec (reflect_String (Val f)) "") as [He|He].
  - by rewrite decide_True.
  - by rewrite decide_False.
Qed.

Lemma urlString_error_witness :
  (urlString messageNoSid "AC00").2 = Some "required field missing"
  ∧ (urlString deleteQueue "AC00").2 = None
  ∧ (urlString messagesTo "AC00").2 = None.
Proof.
  split; [|split].
  - apply (urlString_error messageNoSid "AC00"). distinct_names.
  - apply (urlString_error deleteQueue "AC00"). distinct_names.
  - apply (urlString_error messagesTo "AC00"). distinct_names.
Defined.

(** ** The type-specific suffixes of urlString *)

(** X5.  For a [Call] the URL is the generic path followed by [/Recordings]
    when [Recordings] is set, whatever [Notifications] holds, by
    [/Notifications] when only [Notifications] is set, and by nothing
    otherwise. *)
Theorem urlString_Call (d : Descriptor) (acc : string) :
  dtype d = Call →
  (boolField "Recordings" d = true →
   (urlString d acc).1 = basePath d acc +:+ "/Recordings")
  ∧ (boolField "Recordings" d = false → boolField "Notifications" d = true →
     (urlString d acc).1 = basePath d acc +:+ "/Notifications")
  ∧ (boolField "Recordings" d = false → boolField "Notifications" d = false →
     (urlString d acc).1 = basePath d acc).
Proof.
  intros Ht. rewrite urlString_base. unfold urlSuffix. rewrite Ht.
  repeat split; intros;
    repeat match goal with H : boolField _ _ = _ |- _ => rewrite H end; done.
Qed.

Lemma urlString_Call_witness :
  (urlString (callOf true true) "AC00").1
  = "https://api.twilio.com/2010-04-01/Accounts/AC00/Calls/CA34/Recordings"
  ∧ (urlString (callOf false true) "AC00").1
    = "https://api.twilio.com/2010-04-01/Accounts/AC00/Calls/CA34/Notifications"
  ∧ (urlString (callOf false false) "AC00").1
    = "https://api.twilio.com/2010-04-01/Accounts/AC00/Calls/CA34".
Proof.
  split; [|split].
  - exact (proj1 (urlString_Call (callOf true true) "AC00" eq_refl) eq_refl).
  - exact (proj1 (proj2 (urlString_Call (callOf false true) "AC00" eq_refl))
             eq_refl eq_refl).
  - exact (proj2 (proj2 (urlString_Call (callOf false false) "AC00" eq_refl))
             eq_refl eq_refl).
Defined.

(** X6.  For a [Message] the URL is the generic path alone when [Media] is
    unset, whatever [MediaSid] holds; when [Media] is set it is followed by
    [/Media] and then, if [MediaSid] is not empty, by [/] and [MediaSid]. *)
Theorem urlString_Message (d : Descriptor) (acc : string) :
  dtype d = Message →
  (boolField "Media" d = false → (urlString d acc).1 = basePath d acc)
  ∧ (boolField "Media" d = true → stringField "MediaSid" d = "" →
     (urlString d acc).1 = basePath d acc +:+ "/Media")
  ∧ (boolField "Media" d = true → stringField "MediaSid" d ≠ "" →
     (urlString d acc).1
     = basePath d acc +:+ "/Media/" +:+ stringField "MediaSid" d).
Proof.
  intros Ht. rewrite urlString_base. unfold urlSuffix. rewrite Ht.
  repeat split.
  - by intros ->.
  - by intros -> ->.
  - intros -> Hne. apply nonEmpty_true in Hne as ->.
    by rewrite !StrFacts.app_assoc.
Qed.

Lemma urlString_Message_witness :
  (urlString (messageMedia false "ME09") "AC00").1
  = "https://api.twilio.com/2010-04-01/Accounts/AC00/Messages/MM01"
  ∧ (urlString (messageMedia true "") "AC00").1
    = "https://api.twilio.com/2010-04-01/Accounts/AC00/Messages/MM01/Media"
  ∧ (urlString (messageMedia true "ME09") "AC00").1
    = "https://api.twilio.com/2010-04-01/Accounts/AC00/Messages/MM01/Media/ME09".
Proof.
  split; [|split].
  - exact (proj1 (urlString_Message (messageMedia false "ME09") "AC00" eq_refl)
             eq_refl).
  - exact (proj1 (proj2 (urlString_Message (messageMedia true "") "AC00" eq_refl))
             eq_refl eq_refl).
  - refine (proj2 (proj2 (urlString_Message (messageMedia true "ME09") "AC00"
                            eq_refl)) eq_refl _).
    discriminate.
Defined.

(** X7.  For [AvailablePhoneNumbers] the URL is the generic path followed by
    [/CountryCode] and then [/Type], each only when not empty. *)
Theorem urlString_AvailablePhoneNumbers (d : Descriptor) (acc : string) :
  dtype d = AvailablePhoneNumbers →
  (urlString d acc).1
  = basePath d acc +:+ optSegment (stringField "CountryCode" d)
                   +:+ optSegment (stringField "Type" d).
Proof.
  intros Ht. rewrite urlString_base. unfold urlSuffix, optSegment. rewrite Ht.
  destruct (decide (stringField "CountryCode" d = "")) as [->|Hc],
           (decide (stringField "Type" d = "")) as [->|Hn]; simpl;
    try (apply nonEmpty_true in Hc as ->);
    try (apply nonEmpty_true in Hn as ->);
    by rewrite ?StrFacts.app_assoc, ?StrFacts.app_nil_r.
Qed.

Lemma urlString_AvailablePhoneNumbers_witness :
  (urlString (availableNumbers "US" "Local") "AC00").1
  = "https://api.twilio.com/2010-04-01/Accounts/AC00/AvailablePhoneNumbers/US/Local"
  ∧ (urlString (availableNumbers "" "Local") "AC00").1
    = "https://api.twilio.com/2010-04-01/Accounts/AC00/AvailablePhoneNumbers/Local".
Proof.
  split.
  - exact (urlString_AvailablePhoneNumbers (availableNumbers "US" "Local") "AC00"
             eq_refl).
  - exact (urlString_AvailablePhoneNumbers (availableNumbers "" "Local") "AC00"
             eq_refl).
Defined.

(** X8.  For [UsageRecords] the URL is the generic path followed by [/] and
    [SubResource], also when [SubResource] is empty: the URL then ends in
    [/]. *)
Theorem urlString_UsageRecords (d : Descriptor) (acc : string) :
  dtype d = UsageRecords →
  (urlString d acc).1 = basePath d acc +:+ "/" +:+ stringField "SubResource" d
  ∧ (stringField "SubResource" d = "" → Str.ends_with (urlString d acc).1 "/").
Proof.
  intros Ht. rewrite urlString_base. unfold urlSuffix. rewrite Ht.
  split; [done|]. intros ->. by eexists.
Qed.

Lemma urlString_UsageRecords_witness :
  (urlString (usageRecords "Daily") "AC00").1
  = "https://api.twilio.com/2010-04-01/Accounts/AC00/Usage/Records/Daily"
  ∧ (urlString (usageRecords "") "AC00").1
    = "https://api.twilio.com/2010-04-01/Accounts/AC00/Usage/Records/".
Proof.
  split.
  - exact (proj1 (urlString_UsageRecords (usageRecords "Daily") "AC00" eq_refl)).
  - exact (proj1 (urlString_UsageRecords (usageRecords "") "AC00" eq_refl)).
Defined.

(** X9.  For a [QueueMember] and for a [DeQueue] the URL is the generic path
    followed by [/Front] exactly when [Front] is set and [CallSid] is
    empty. *)
Theorem urlString_Front (d : Descriptor) (acc : string) :
  dtype d = QueueMember ∨ dtype d = DeQueue →
  (boolField "Front" d = true → stringField "CallSid" d = "" →
   (urlString d acc).1 = basePath d acc +:+ "/Front")
  ∧ (boolField "Front" d = false ∨ stringField "CallSid" d ≠ "" →
     (urlString d acc).1 = basePath d acc).
Proof.
  intros Ht. rewrite urlString_base. unfold urlSuffix.
  split.
  - intros -> ->. by destruct Ht as [-> | ->].
  - intros [-> | Hne]; [by destruct Ht as [-> | ->]|].
    apply String.eqb_neq in Hne as ->. rewrite andb_false_r.
    by destruct Ht as [-> | ->].
Qed.

Lemma urlString_Front_witness :
  (urlString (queueMember true "CA34") "AC00").1
  = "https://api.twilio.com/2010-04-01/Accounts/AC00/Queues/QU01/Members/CA34"
  ∧ (urlString (queueMember false "") "AC00").1
    = "https://api.twilio.com/2010-04-01/Accounts/AC00/Queues/QU01/Members/".
Proof.
  split.
  - refine (proj2 (urlString_Front (queueMember true "CA34") "AC00" (or_introl eq_refl))
              (or_intror _)).
    discriminate.
  - exact (proj2 (urlString_Front (queueMember false "") "AC00" (or_introl eq_refl))
             (or_introl eq_refl)).
Defined.

(** X10.  For every type without a case in the second type switch the URL
    is the generic path: no field outside the four path roles changes it. *)
Theorem urlString_no_suffix (d : Descriptor) (acc : string) :
  dtype d ∉ suffixTypes → (urlString d acc).1 = basePath d acc.
Proof.
  intros Hout. rewrite urlString_base. unfold urlSuffix.
  destruct (dtype d); try done; destruct Hout; unfold suffixTypes;
    rewrite !elem_of_cons; tauto.
Qed.

Lemma urlString_no_suffix_witness :
  (urlString participantsOfCall "AC00").1
  = "https://api.twilio.com/2010-04-01/Accounts/AC00/Conferences/CF12/Participants/CA34".
Proof.
  apply (urlString_no_suffix participantsOfCall "AC00").
  apply (bool_decide_unpack _). by vm_compute.
Defined.

(** X11.  When a [QueueMember] or [DeQueue] struct declares [CallSid] as a
    path value (a string field with no tag), asking for the front of the
    queue with an empty [CallSid] builds a URL that ends in [//Front]: the
    generic part has already appended [/] and the empty value. *)
Theorem urlString_double_slash (d : Descriptor) (acc : string)
    (f : StructField) :
  dtype d = QueueMember ∨ dtype d = DeQueue →
  distinctNames d →
  findField "CallSid" d = Some f → Tag f = "" → Val f = StringVal "" →
  boolField "Front" d = true →
  Str.ends_with (urlString d acc).1 "//Front".
Proof.
  intros Ht Hnd Hf Htag Hval Hfront.
  assert (stringField "CallSid" d = "") as Hcs.
  { unfold stringField. rewrite Hf. simpl. by rewrite Hval. }
  assert ((urlString d acc).1 = basePath d acc +:+ "/Front") as ->.
  { rewrite urlString_base. unfold urlSuffix. rewrite Hfront, Hcs.
    by destruct Ht as [-> | ->]. }
  rewrite basePath_spec_path by done. unfold spec_path, spec_callSidSeg.
  rewrite Hf, Htag, Hval. simpl.
  exists (apiRoot +:+ spec_resourceSeg d acc +:+ spec_sidSeg d
                  +:+ spec_subresourceSeg d).
  by rewrite !StrFacts.app_assoc.
Qed.

Lemma urlString_double_slash_witness :
  (urlString (queueMember true "") "AC00").1
  = "https://api.twilio.com/2010-04-01/Accounts/AC00/Queues/QU01/Members//Front"
  ∧ Str.ends_with (urlString (queueMember true "") "AC00").1 "//Front".
Proof.
  split; [reflexivity|].
  apply (urlString_double_slash (queueMember true "") "AC00"
           (mkField "CallSid" "" (StringVal "")));
    first [by left | distinct_names | reflexivity].
Defined.

(** ** httpRequest and Request *)

Section RequestFacts.

Variable parseURL : string → option error.
Variable RoundTrip : HttpRequest → HttpResponse + error.
Variable xmlUnmarshal : string → TwilioResponse → TwilioResponse.

(** X12.  [httpRequest] fails exactly when [urlString] fails, with that
    error, or when [urlString] succeeds and the URL of the request does not
    parse, with the parse error; the check of the required field comes
    first, so that an empty [Sid] is reported even if the URL would not
    parse. *)
Theorem httpRequest_error (d : Descriptor) (acc : string) (e : error) :
  (httpRequest parseURL d acc = inr e
   ↔ (urlString d acc).2 = Some e
     ∨ ((urlString d acc).2 = None ∧ parseURL (spec_url d acc) = Some e))
  ∧ ((urlString d acc).2 = Some e → httpRequest parseURL d acc = inr e).
Proof.
  rewrite httpRequest_spec. unfold http_NewRequest.
  destruct (urlString d acc).2 as [e'|].
  - split; [|congruence]. split; [intros [= ->]; by left|].
    intros [[= ->]|[? _]]; done.
  - split; [|done].
    destruct (parseURL (spec_url d acc)) as [e'|]; split;
      first [intros [= ->]; right; done | intros [?|[_ ?]]; congruence].
Qed.

(** What the pair of type switches and [prepare] put on the wire. *)
Lemma prepare_built (twiClient : TwilioClient) (d : Descriptor) (r : HttpRequest) :
  httpRequest parseURL d (accountSid twiClient) = inl r →
  prepare twiClient r
  = {| Method := spec_method (dtype d);
       URL := spec_url d (accountSid twiClient);
       Body := spec_body d;
       BasicAuth := Some (authName twiClient, authToken twiClient);
       Header := <["Accept" := "*/*"]>
                   (<["Content-Type" := "application/x-www-form-urlencoded"]> ∅) |}.
Proof.
  rewrite httpRequest_spec.
  destruct (urlString d (accountSid twiClient)).2; [done|].
  intros [_ ->]%http_NewRequest_inl.
  unfold prepare, authName, SetBasicAuth, HeaderSet. simpl.
  destruct (decide (authUser twiClient = "")) as [He|He].
  - apply nonEmpty_false in He. by rewrite He.
  - apply nonEmpty_true in He. by rewrite He.
Qed.

Lemma Request_trace_built (twiClient : TwilioClient) (d : Descriptor)
    (net : list HttpRequest) (r : HttpRequest) :
  httpRequest parseURL d (accountSid twiClient) = inl r →
  (Request parseURL RoundTrip xmlUnmarshal twiClient d net).2
  = net ++ [prepare twiClient r].
Proof.
  intros Hreq. unfold Request, httpclient_Do. rewrite Hreq.
  destruct (RoundTrip (prepare twiClient r)) as [response|e]; [|done].
  simpl. by destruct (exceptionToErr _).
Qed.

(** X13.  [Request] hands at most one request to the transport per call:
    none, returning the empty envelope and the error, when the request
    cannot be built, and exactly one otherwise, whatever the transport
    answers. *)
Theorem Request_sends_at_most_once (twiClient : TwilioClient) (d : Descriptor)
    (net : list HttpRequest) :
  match httpRequest parseURL d (accountSid twiClient) with
  | inr e =>
      Request parseURL RoundTrip xmlUnmarshal twiClient d net
      = ((zeroResponse, Some e), net)
  | inl r =>
      (Request parseURL RoundTrip xmlUnmarshal twiClient d net).2
      = net ++ [prepare twiClient r]
  end.
Proof.
  unfold Request, httpclient_Do.
  destruct (httpRequest parseURL d (accountSid twiClient)) as [r|e]; [|done].
  destruct (RoundTrip (prepare twiClient r)) as [response|e]; [|done].
  simpl. by destruct (exceptionToErr _).
Qed.

(** X14.  The request the transport receives has the method, URL and body
    the dispatcher chose, basic authentication with the API-key user (the
    account Sid when there is none) and the auth token, and exactly two
    headers: [Accept: */*] and, for GET as well, the form content type. *)
Theorem Request_wire (twiClient : TwilioClient) (d : Descriptor)
    (net : list HttpRequest) (r : HttpRequest) :
  httpRequest parseURL d (accountSid twiClient) = inl r →
  (Request parseURL RoundTrip xmlUnmarshal twiClient d net).2
  = net ++ [ {| Method := spec_method (dtype d);
                URL := spec_url d (accountSid twiClient);
                Body := spec_body d;
                BasicAuth := Some (authName twiClient, authToken twiClient);
                Header := <["Accept" := "*/*"]>
                            (<["Content-Type" := "application/x-www-form-urlencoded"]> ∅) |} ].
Proof.
  intros Hreq. rewrite (Request_trace_built twiClient d net r Hreq).
  by rewrite (prepare_built twiClient d r).
Qed.

(** X15.  A client made by [NewClient] builds its URLs with the first
    credential as account Sid and authenticates with (account Sid, token)
    when made from two credentials, and with (key, secret) when made from
    three, unless the key is empty: then it falls back to the account
    Sid. *)
Theorem Request_credentials (authBits : list string) (twiClient : TwilioClient)
    (d : Descriptor) (net : list HttpRequest) (r : HttpRequest) :
  NewClient authBits = inl twiClient →
  httpRequest parseURL d (accountSid twiClient) = inl r →
  ∃ sent,
    (Request parseURL RoundTrip xmlUnmarshal twiClient d net).2 = net ++ [sent]
    ∧ URL sent = spec_url d (hd "" authBits)
    ∧ BasicAuth sent
      = match authBits with
        | [sid; token] => Some (sid, token)
        | [sid; key; secret] =>
            Some (if decide (key = "") then sid else key, secret)
        | _ => None
        end.
Proof.
  intros Hnew Hreq. eexists. split.
  { by apply Request_trace_built. }
  rewrite (prepare_built twiClient d r Hreq). simpl.
  destruct authBits as [|a [|b [|c [|x l]]]]; simpl in Hnew; try done;
    injection Hnew as <-; done.
Qed.

(** X16.  [Request] returns a [nil] error exactly when the request was
    built, the transport answered and the decoded envelope carries no
    exception; the HTTP status code of the answer plays no part. *)
Theorem Request_nil_error (twiClient : TwilioClient) (d : Descriptor)
    (net : list HttpRequest) :
  (Request parseURL RoundTrip xmlUnmarshal twiClient d net).1.2 = None
  ↔ ∃ r response,
      httpRequest parseURL d (accountSid twiClient) = inl r
      ∧ RoundTrip (prepare twiClient r) = inl response
      ∧ Exception
          (xmlUnmarshal (RespBody response)
             {| Status := {| Http := StatusCode response; Twilio := 0 |};
                Exception := None |}) = None.
Proof.
  unfold Request, httpclient_Do.
  destruct (httpRequest parseURL d (accountSid twiClient)) as [r|e].
  - destruct (RoundTrip (prepare twiClient r)) as [response|e] eqn:Hdo.
    + simpl. unfold exceptionToErr.
      set (decoded := xmlUnmarshal _ _).
      destruct (Exception decoded) as [ex|] eqn:Hex; simpl.
      * split; [done|]. intros (r' & response' & [= <-] & Hdo' & Hnone).
        rewrite Hdo in Hdo'. injection Hdo' as <-.
        fold decoded in Hnone. congruence.
      * split; [|done]. intros _. by exists r, response.
    + simpl. split; [done|]. intros (r' & response' & [= <-] & Hdo' & _).
      congruence.
  - simpl. split; [done|]. by intros (r' & response' & [=] & _).
Qed.

(** X17.  An error returned by [Request] comes either with the empty
    envelope (nothing was decoded) or with an envelope that carries the
    exception the message was made of and its code in the status record. *)
Theorem Request_error_envelope (twiClient : TwilioClient) (d : Descriptor)
    (net net' : list HttpRequest) (twiResp : TwilioResponse) (e : error) :
  Request parseURL RoundTrip xmlUnmarshal twiClient d net
  = ((twiResp, Some e), net') →
  twiResp = zeroResponse
  ∨ ∃ ex, Exception twiResp = Some ex
          ∧ e = Detail ex +:+ " (" +:+ MoreInfo ex +:+ ")"
          ∧ Twilio (Status twiResp) = Code ex.
Proof.
  unfold Request, httpclient_Do.
  destruct (httpRequest parseURL d (accountSid twiClient)) as [r|e'].
  - destruct (RoundTrip (prepare twiClient r)) as [response|e'].
    + simpl. unfold exceptionToErr.
      set (decoded := xmlUnmarshal _ _).
      destruct (Exception decoded) as [ex|] eqn:Hex; simpl; [|done].
      intros [= <- <- _]. right. by exists ex.
    + intros [= <- _ _]. by left.
  - intros [= <- _ _]. by left.
Qed.

End RequestFacts.

Lemma Request_wire_witness :
  (Request parseAny unauthorized decodeAuthError sampleClient messagesTo []).2
  = [ {| Method := "GET";
         URL := "https://api.twilio.com/2010-04-01/Accounts/AC00/Messages?To=%2B15550100";
         Body := None;
         BasicAuth := Some ("AC00", "secret");
         Header := <["Accept" := "*/*"]>
                     (<["Content-Type" := "application/x-www-form-urlencoded"]> ∅) |} ].
Proof.
  apply (Request_wire parseAny unauthorized decodeAuthError sampleClient
           messagesTo []
           {| Method := "GET";
              URL := "https://api.twilio.com/2010-04-01/Accounts/AC00/Messages?To=%2B15550100";
              Body := None; BasicAuth := None; Header := ∅ |}).
  reflexivity.
Defined.

Lemma Request_credentials_witness :
  ∃ sent,
    (Request parseAny refused decodeAuthError
       {| accountSid := "AC00"; authUser := "SK01"; authToken := "secret" |}
       deleteQueue []).2 = [sent]
    ∧ URL sent = "https://api.twilio.com/2010-04-01/Accounts/AC00/Queues/QU01"
    ∧ BasicAuth sent = Some ("SK01", "secret").
Proof.
  apply (Request_credentials parseAny refused decodeAuthError
           ["AC00"; "SK01"; "secret"]
           {| accountSid := "AC00"; authUser := "SK01"; authToken := "secret" |}
           deleteQueue []
           {| Method := "DELETE";
              URL := "https://api.twilio.com/2010-04-01/Accounts/AC00/Queues/QU01";
              Body := Some ""; BasicAuth := None; Header := ∅ |});
    reflexivity.
Defined.

Lemma Request_error_envelope_witness :
  zeroResponse = zeroResponse
  ∨ ∃ ex, Exception zeroResponse = Some ex
          ∧ "connection refused" = Detail ex +:+ " (" +:+ MoreInfo ex +:+ ")"
          ∧ Twilio (Status zeroResponse) = Code ex.
Proof.
  apply (Request_error_envelope parseAny refused decodeAuthError sampleClient
           deleteQueue []
           [prepare sampleClient
              {| Method := "DELETE";
                 URL := "https://api.twilio.com/2010-04-01/Accounts/AC00/Queues/QU01";
                 Body := Some ""; BasicAuth := None; Header := ∅ |}]
           zeroResponse "connection refused").
  reflexivity.
Defined.

(** ** QueryEscape *)

(** X18.  The escaping is lossless: decoding an escaped value gives the
    value back, so two different values never have the same encoding. *)
Theorem QueryEscape_lossless (v : string) :
  unescapeQuery (QueryEscape v) = v
  ∧ ∀ w, QueryEscape v = QueryEscape w → v = w.
Proof.
  assert (∀ u, unescapeQuery (QueryEscape u) = u) as Hrt.
  { induction u as [|c u IH]; [done|].
    simpl. by rewrite unescapeQuery_escapeByte, IH. }
  split; [apply Hrt|].
  intros w Heq. by rewrite <- (Hrt v), Heq, Hrt.
Qed.

Lemma allBytes_app (p : ascii → bool) (s t : string) :
  allBytes p (s +:+ t) = allBytes p s && allBytes p t.
Proof.
  induction s as [|a s IH]; [done|].
  rewrite StrFacts.app_cons. simpl. rewrite IH. by rewrite andb_assoc.
Qed.

Lemma escapeByte_queryByte (c : ascii) : allBytes queryByte (escapeByte c) = true.
Proof. destruct c as [[] [] [] [] [] [] [] []]; by vm_compute. Qed.

(** X19.  An escaped value consists of unreserved bytes (letters, digits,
    [-], [_], [.], [~]), [+] and [%] only, and is at most three times as
    long as the value. *)
Theorem QueryEscape_alphabet (v : string) :
  allBytes queryByte (QueryEscape v) = true
  ∧ String.length v ≤ String.length (QueryEscape v) ≤ 3 * String.length v.
Proof.
  induction v as [|c v [IHa IHl]]; [by simpl; lia|].
  simpl. rewrite allBytes_app, escapeByte_queryByte, IHa, StrFacts.length_app.
  split; [done|].
  assert (String.length (escapeByte c) = 1 ∨ String.length (escapeByte c) = 3)
    as Hc.
  { destruct c as [[] [] [] [] [] [] [] []]; vm_compute; auto. }
  lia.
Qed.

Lemma escapeByte_unreserved (c : ascii) :
  unreserved c = true → escapeByte c = String c "".
Proof. destruct c as [[] [] [] [] [] [] [] []]; by vm_compute. Qed.

(** X20.  A value made of unreserved bytes only, such as a Sid, is its own
    encoding. *)
Theorem QueryEscape_unreserved (v : string) :
  allBytes unreserved v = true → QueryEscape v = v.
Proof.
  induction v as [|c v IH]; [done|].
  simpl. intros [Hc Hv]%andb_true_iff.
  by rewrite escapeByte_unreserved, IH.
Qed.

Lemma QueryEscape_unreserved_witness :
  QueryEscape "CA34ab-cd_ef.gh~" = "CA34ab-cd_ef.gh~".
Proof. apply (QueryEscape_unreserved "CA34ab-cd_ef.gh~"). reflexivity. Defined.

(** ** Reading the query string back *)

Lemma splitOn_clean (c : ascii) (e : string) :
  Str.count c e = 0 → splitOn c e = [e].
Proof.
  induction e as [|a e IH]; [done|]. simpl.
  destruct (Ascii.eqb a c); [done|]. simpl. intros He. by rewrite IH.
Qed.

Lemma splitOn_sep (c : ascii) (e rest : string) :
  Str.count c e = 0 →
  splitOn c (e +:+ String c rest) = e :: splitOn c rest.
Proof.
  induction e as [|a e IH].
  - intros _. change ("" +:+ String c rest) with (String c rest).
    simpl. by rewrite Ascii.eqb_refl.
  - rewrite StrFacts.app_cons. simpl.
    destruct (Ascii.eqb a c); [done|]. simpl. intros He. by rewrite IH.
Qed.

Lemma splitOn_concat (es : list string) :
  es ≠ [] → (∀ e, e ∈ es → Str.count "&" e = 0) →
  splitOn "&" (String.concat "&" es) = es.
Proof.
  induction es as [|e es IH]; [done|]. intros _ Hclean.
  destruct es as [|e' es].
  - simpl. apply splitOn_clean, Hclean, list_elem_of_here.
  - change (String.concat "&" (e :: e' :: es))
      with (e +:+ String "&" (String.concat "&" (e' :: es))).
    rewrite splitOn_sep by apply Hclean, list_elem_of_here.
    f_equal. apply IH; [done|].
    intros x Hx. apply Hclean. by apply list_elem_of_further.
Qed.

(** X21.  When no tag contains [&], cutting a non-empty query string at
    every [&] gives back exactly the emitted entries, in order: no escaped
    value can be mistaken for a separator. *)
Theorem queryString_split (d : Descriptor) :
  (∀ f, f ∈ dfields d → Str.count "&" (Tag f) = 0) →
  spec_entries d ≠ [] →
  splitOn "&" (queryString d) = spec_entries d.
Proof.
  intros Htags Hne. rewrite queryString_concat.
  apply splitOn_concat; [done|].
  intros e. unfold spec_entries in *.
  destruct (inQueryCases (dtype d)); [|done].
  apply spec_entriesOf_count; [|done].
  intros v. apply QueryEscape_clean.
Qed.

Lemma queryString_split_witness :
  splitOn "&" (queryString sendMessageMedia)
  = ["Body=hi+there"; "MediaUrl=http%3A%2F%2Fa%2Fb"; "MediaUrl=c%26d";
     "From=%2B15550100"].
Proof.
  apply (queryString_split sendMessageMedia).
  - intros f Hf. simpl in Hf.
    repeat (apply elem_of_cons in Hf as [->|Hf]; [reflexivity|]).
    by apply elem_of_nil in Hf.
  - discriminate.
Defined.

(** ** Encoding a struct in two parts *)

Lemma spec_fieldEntries_nonempty (f : StructField) (e : string) :
  e ∈ spec_fieldEntries f → e ≠ "".
Proof.
  unfold spec_fieldEntries.
  destruct (Val f) as [s|b|l]; repeat case_decide;
    rewrite ?list_elem_of_fmap, ?list_elem_of_singleton, ?elem_of_nil;
    try done.
  - intros ->. destruct (Tag f); [tauto|done].
  - intros (v & -> & _). destruct (Tag f); [tauto|done].
Qed.

Lemma spec_entriesOf_nonempty (fs : list StructField) (e : string) :
  e ∈ spec_entriesOf fs → e ≠ "".
Proof.
  unfold spec_entriesOf. intros He.
  apply list_elem_of_In, in_flat_map in He as (f & _ & He).
  apply list_elem_of_In in He. by apply (spec_fieldEntries_nonempty f).
Qed.

Lemma concat_nonempty (es : list string) :
  es ≠ [] → (∀ e, e ∈ es → e ≠ "") → String.concat "&" es ≠ "".
Proof.
  destruct es as [|e es]; [done|]. intros _ Hne.
  assert (e ≠ "") as He by apply Hne, list_elem_of_here.
  destruct e as [|a e]; [done|]. by destruct es.
Qed.

Lemma concat_app (es1 es2 : list string) :
  es1 ≠ [] → es2 ≠ [] →
  String.concat "&" (es1 ++ es2)
  = String.concat "&" es1 +:+ "&" +:+ String.concat "&" es2.
Proof.
  induction es1 as [|e es1 IH]; [done|]. intros _ H2.
  destruct es1 as [|e' es1].
  - destruct es2; [done|]. reflexivity.
  - change (String.concat "&" ((e :: e' :: es1) ++ es2))
      with (e +:+ "&" +:+ String.concat "&" ((e' :: es1) ++ es2)).
    rewrite IH by done.
    change (String.concat "&" (e :: e' :: es1))
      with (e +:+ "&" +:+ String.concat "&" (e' :: es1)).
    by rewrite !StrFacts.app_assoc.
Qed.

(** X22.  Encoding a struct whose fields are those of two parts, one after
    the other, gives the two encodings joined by [&], or the non-empty one
    alone when a part emits nothing: the encoding of a field does not
    depend on the fields around it. *)
Theorem queryString_app (t : ReqType) (l1 l2 : list StructField) :
  queryString (mkDescriptor t (l1 ++ l2))
  = joinQuery (queryString (mkDescriptor t l1)) (queryString (mkDescriptor t l2)).
Proof.
  rewrite !queryString_concat. unfold spec_entries, joinQuery. simpl.
  destruct (inQueryCases t); [|done].
  rewrite spec_entriesOf_app.
  destruct (spec_entriesOf l1) as [|e1 es1] eqn:H1.
  { by rewrite decide_True. }
  rewrite decide_False.
  2:{ apply concat_nonempty; [done|]. intros e He.
      apply (spec_entriesOf_nonempty l1). by rewrite H1. }
  destruct (spec_entriesOf l2) as [|e2 es2] eqn:H2.
  { rewrite decide_True by done. by rewrite app_nil_r. }
  rewrite decide_False.
  2:{ apply concat_nonempty; [done|]. intros e He.
      apply (spec_entriesOf_nonempty l2). by rewrite H2. }
  by apply concat_app.
Qed.
